(** * Reward terms of pupperv3_mjx (rewards_test_k.py and rewards_test_w.py)

    A shallow embedding of the two reward catalogs of the repository.  The
    catalogs are JAX code over float arrays; the main model reads them over
    the real numbers (exact arithmetic), and the module [F64] below reads the
    parts that matter for NaN over IEEE binary64 (Rocq's
    primitive floats), the arithmetic of JAX with x64 enabled.

    Arrays are lists; [jp.sum] is a right fold of [+]; elementwise binary
    operations pair the entries of two arrays of the same shape (JAX
    broadcasts a one-entry operand and refuses other mismatched shapes; the
    model pairs the common prefix, so the statements that depend on it
    assume arrays of one length).  The brax helpers
    the catalogs call ([math.rotate], [math.quat_inv], [math.normalize],
    [Transform.do] on a [Motion]) are translated from brax's source. *)

From Stdlib Require Import Reals Lra List ZArith Bool Lia Permutation.
From Stdlib Require Floats.
Import ListNotations.

Local Open Scope R_scope.

(** ** Array helpers *)

Definition square (x : R) : R := x * x.

(** [jp.sum] of a one-dimensional array. *)
Definition jsum (l : list R) : R := fold_right Rplus 0 l.

(** Elementwise binary operation on two arrays of one shape. *)
Fixpoint zipw {A B C : Type} (f : A -> B -> C) (l1 : list A) (l2 : list B) : list C :=
  match l1, l2 with
  | a :: r1, b :: r2 => f a b :: zipw f r1 r2
  | _, _ => []
  end.

Definition vsub (l1 l2 : list R) : list R := zipw Rminus l1 l2.

(** A boolean array used as a number ([x * b] in numpy): [True] is 1. *)
Definition b2R (b : bool) : R := if b then 1 else 0.

(** [x[1::3]]: every third entry, starting at index 1. *)
Fixpoint stride3_from1 {A : Type} (l : list A) : list A :=
  match l with
  | _ :: b :: _ :: rest => b :: stride3_from1 rest
  | _ :: b :: [] => [b]
  | _ => []
  end.

(** Indexing [x[i]] of a JAX array with an integer index: a negative index
    counts from the end, and JAX clamps an index that is still out of range
    to the first or last row.  (An empty array has no row; the model reads
    the default there.) *)
Definition npget {A : Type} (d : A) (l : list A) (i : Z) : A :=
  let n := Z.of_nat (length l) in
  let j := if (i <? 0)%Z then (n + i)%Z else i in
  nth (Z.to_nat (Z.max 0 (Z.min j (n - 1)))) l d.

(** brax's [take(i)], which gathers with [mode='wrap']: the index is read
    modulo the number of rows. *)
Definition take_wrap {A : Type} (d : A) (l : list A) (i : Z) : A :=
  nth (Z.to_nat (i mod Z.of_nat (length l))) l d.

(** [jp.clip(x, lo, hi)] is [jp.minimum(jp.maximum(x, lo), hi)]. *)
Definition clip (x lo hi : R) : R := Rmin (Rmax x lo) hi.

Definition EPS : R := 1 / 1000000.

(** ** brax.math *)

Record V3 := mkV3 { v_x : R; v_y : R; v_z : R }.
Definition v3zero : V3 := mkV3 0 0 0.

(** A quaternion [w, x, y, z] as brax stores it. *)
Record Quat := mkQ { q_w : R; q_x : R; q_y : R; q_z : R }.
Definition quat_identity : Quat := mkQ 1 0 0 0.

Definition v3add (a b : V3) : V3 := mkV3 (v_x a + v_x b) (v_y a + v_y b) (v_z a + v_z b).
Definition v3sub (a b : V3) : V3 := mkV3 (v_x a - v_x b) (v_y a - v_y b) (v_z a - v_z b).
Definition v3scale (s : R) (a : V3) : V3 := mkV3 (s * v_x a) (s * v_y a) (s * v_z a).
Definition v3dot (a b : V3) : R := v_x a * v_x b + v_y a * v_y b + v_z a * v_z b.
Definition v3cross (a b : V3) : V3 :=
  mkV3 (v_y a * v_z b - v_z a * v_y b)
       (v_z a * v_x b - v_x a * v_z b)
       (v_x a * v_y b - v_y a * v_x b).
Definition v3list (a : V3) : list R := [v_x a; v_y a; v_z a].

(** [math.quat_inv(q) = q * [1, -1, -1, -1]]. *)
Definition quat_inv (q : Quat) : Quat := mkQ (q_w q) (- q_x q) (- q_y q) (- q_z q).

(** [math.rotate(vec, quat)]:
    [s, u = quat[0], quat[1:]];
    [r = 2 * (dot(u, vec) * u) + (s * s - dot(u, u)) * vec];
    [r = r + 2 * s * cross(u, vec)]. *)
Definition rotate (vec : V3) (quat : Quat) : V3 :=
  let s := q_w quat in
  let u := mkV3 (q_x quat) (q_y quat) (q_z quat) in
  let r := v3add (v3scale 2 (v3scale (v3dot u vec) u)) (v3scale (s * s - v3dot u u) vec) in
  v3add r (v3scale (2 * s) (v3cross u vec)).

(** [math.safe_norm(x)]: [is_zero = jp.allclose(x, 0.0)] (every entry within
    [atol = 1e-8] of 0); the norm is reported as 0 in that case and as the
    Euclidean norm otherwise.  [math.normalize(x)[1]] is this norm. *)
Definition allclose0 (x : list R) : bool :=
  forallb (fun c => if Rle_dec (Rabs c) (1 / 100000000) then true else false) x.

Definition safe_norm (x : list R) : R :=
  if allclose0 x then 0 else sqrt (jsum (map square x)).

Definition normalize_norm (x : list R) : R := safe_norm x.

(** ** brax.base *)

(** [Motion] / [Transform] of all bodies: row [i] belongs to body [i]. *)
Record Motion := mkMotion { m_ang : list V3; m_vel : list V3 }.
Record Transform := mkTransform { t_pos : list V3; t_rot : list Quat }.

Definition row0_v (l : list V3) : V3 := nth 0 l v3zero.
Definition row0_q (l : list Quat) : Quat := nth 0 l quat_identity.

(** [Transform.do] applied to a [Motion] (one row):
    [rot_t = quat_inv(self.rot)];
    [ang = rotate(m.ang, rot_t)];
    [vel = rotate(m.vel - cross(self.pos, m.ang), rot_t)]. *)
Definition transform_do_motion (pos : V3) (rot : Quat) (ang vel : V3) : V3 * V3 :=
  let rot_t := quat_inv rot in
  (rotate ang rot_t, rotate (v3sub vel (v3cross pos ang)) rot_t).

(** One contact of [pipeline_state.contact] (brax stores the three fields as
    parallel arrays; here one record per contact). *)
Record Contact := mkContact { geom1 : Z; geom2 : Z; dist : R }.

(** The part of [base.State] the catalog reads. *)
Record PipelineState := mkState {
  site_xpos : list V3;
  xpos : list V3;
  xd : Motion;
  contact : list Contact
}.

(** [commands[i]] and [commands[:k]]. *)
Definition cmd (c : list R) (i : nat) : R := nth i c 0.

Definition gt_b (a b : R) : bool := if Rlt_dec b a then true else false.
Definition lt_b (a b : R) : bool := if Rlt_dec a b then true else false.

(** ** Lines shared verbatim by both catalogs *)

(** [reward_foot_slip], up to its final clip:
    [pos = site_xpos[feet_site_id]];
    [feet_offset = pos - xpos[lower_leg_body_id]];
    [offset = Transform.create(pos=feet_offset)] (identity rotation);
    [foot_indices = lower_leg_body_id - 1];
    [foot_vel = offset.vmap().do(xd.take(foot_indices)).vel];
    [jp.sum(jp.square(foot_vel[:, :2]) * contact_filt.reshape((-1, 1)))]. *)
Definition foot_vel (ps : PipelineState) (site_id body_id : Z) : V3 :=
  let pos := npget v3zero (site_xpos ps) site_id in
  let feet_offset := v3sub pos (npget v3zero (xpos ps) body_id) in
  let foot_index := (body_id - 1)%Z in
  let ang := take_wrap v3zero (m_ang (xd ps)) foot_index in
  let vel := take_wrap v3zero (m_vel (xd ps)) foot_index in
  snd (transform_do_motion feet_offset quat_identity ang vel).

Definition foot_slip_sum (ps : PipelineState) (contact_filt : list bool)
    (feet_site_id lower_leg_body_id : list Z) : R :=
  let vels := zipw (foot_vel ps) feet_site_id lower_leg_body_id in
  jsum (concat (zipw (fun v c => [square (v_x v) * b2R c; square (v_y v) * b2R c])
                     vels contact_filt)).

(** [reward_geom_collision], up to its final clip:
    [contact = 0.0; for id in geom_ids: contact += jp.sum(((geom1 == id) |
    (geom2 == id)) * (dist < 0.0))]. *)
Definition touches (id : Z) (c : Contact) : bool := ((geom1 c =? id) || (geom2 c =? id))%Z.

Definition collision_count (ps : PipelineState) (geom_ids : list Z) : R :=
  fold_left
    (fun acc id => acc + jsum (map (fun c => b2R (touches id c) * b2R (lt_b (dist c) 0))
                                   (contact ps)))
    geom_ids 0.

(** The abduction target's default, [jp.zeros(4)]. *)
Definition zeros4 : list R := [0; 0; 0; 0].

(** ** rewards_test_k.py: the unit-interval catalog *)
Module K.

Definition reward_lin_vel_z (xd : Motion) : R :=
  clip (square (v_z (row0_v (m_vel xd))) / 4) 0 1.

Definition reward_ang_vel_xy (xd : Motion) : R :=
  let a := row0_v (m_ang xd) in
  clip (jsum (map square [v_x a; v_y a]) / 25) 0 1.

Definition reward_tracking_orientation (desired_world_z_in_body_frame : V3)
    (x : Transform) (tracking_sigma : R) : R :=
  let world_z := mkV3 0 0 1 in
  let world_z_in_body_frame := rotate world_z (quat_inv (row0_q (t_rot x))) in
  let error := jsum (map square (v3list (v3sub world_z_in_body_frame
                                                desired_world_z_in_body_frame))) in
  clip (exp (- error / (tracking_sigma + EPS))) 0 1.

Definition reward_orientation (x : Transform) : R :=
  let up := mkV3 0 0 1 in
  let rot_up := rotate up (row0_q (t_rot x)) in
  clip (jsum (map square [v_x rot_up; v_y rot_up]) / 2) 0 1.

Definition reward_torques (torques : list R) : R :=
  clip (jsum (map square torques) / 1200) 0 1.

Definition reward_joint_acceleration (joint_vel last_joint_vel : list R) (dt : R) : R :=
  let acceleration :=
    jsum (map square (map (fun d => d / (dt + EPS)) (vsub joint_vel last_joint_vel))) in
  clip (acceleration / 120000) 0 1.

Definition reward_mechanical_work (torques velocities : list R) : R :=
  clip (jsum (map Rabs (zipw Rmult torques velocities)) / 600) 0 1.

Definition reward_action_rate (act last_act : list R) : R :=
  clip (jsum (map square (vsub act last_act)) / 48) 0 1.

Definition reward_tracking_lin_vel (commands : list R) (x : Transform) (xd : Motion)
    (tracking_sigma : R) : R :=
  let local_vel := rotate (row0_v (m_vel xd)) (quat_inv (row0_q (t_rot x))) in
  let lin_vel_error := jsum (map square [cmd commands 0 - v_x local_vel;
                                         cmd commands 1 - v_y local_vel]) in
  let lin_vel_reward := exp (- lin_vel_error / (tracking_sigma + EPS)) in
  clip lin_vel_reward 0 1.

Definition reward_tracking_ang_vel (commands : list R) (x : Transform) (xd : Motion)
    (tracking_sigma : R) : R :=
  let base_ang_vel := rotate (row0_v (m_ang xd)) (quat_inv (row0_q (t_rot x))) in
  let ang_vel_error := square (cmd commands 2 - v_z base_ang_vel) in
  clip (exp (- ang_vel_error / (tracking_sigma + EPS))) 0 1.

Definition reward_feet_air_time (air_time : list R) (first_contact : list bool)
    (commands : list R) (minimum_airtime : R) : R :=
  let rew_air_time := jsum (zipw (fun a f => (a - minimum_airtime) * b2R f)
                                 air_time first_contact) in
  let rew_air_time := rew_air_time * b2R (gt_b (normalize_norm (firstn 3 commands)) (5 / 100)) in
  clip (rew_air_time / 2) 0 1.

Definition reward_abduction_angle (joint_angles desired_abduction_angles : list R) : R :=
  clip (jsum (map square (vsub (stride3_from1 joint_angles) desired_abduction_angles))
        / (PI ^ 2)) 0 1.

Definition reward_stand_still (commands joint_angles default_pose : list R)
    (command_threshold : R) : R :=
  let penalty := jsum (map Rabs (vsub joint_angles default_pose))
                 * b2R (lt_b (normalize_norm (firstn 3 commands)) command_threshold) in
  clip (penalty / (12 * PI)) 0 1.

Definition reward_foot_slip (pipeline_state : PipelineState) (contact_filt : list bool)
    (feet_site_id lower_leg_body_id : list Z) : R :=
  let slip_penalty := foot_slip_sum pipeline_state contact_filt feet_site_id lower_leg_body_id in
  clip (slip_penalty / 16) 0 1.

Definition reward_termination (done : bool) (step step_threshold : Z) : bool :=
  done && (step <? step_threshold)%Z.

Definition reward_geom_collision (pipeline_state : PipelineState) (geom_ids : list Z) : R :=
  clip (collision_count pipeline_state geom_ids / 10) 0 1.

End K.

(** ** rewards_test_w.py: the signed-wide catalog *)
Module W.

Definition reward_lin_vel_z (xd : Motion) : R :=
  clip (square (v_z (row0_v (m_vel xd)))) (-1000) 1000.

Definition reward_ang_vel_xy (xd : Motion) : R :=
  let a := row0_v (m_ang xd) in
  clip (jsum (map square [v_x a; v_y a])) (-1000) 1000.

Definition reward_tracking_orientation (desired_world_z_in_body_frame : V3)
    (x : Transform) (tracking_sigma : R) : R :=
  let world_z := mkV3 0 0 1 in
  let world_z_in_body_frame := rotate world_z (quat_inv (row0_q (t_rot x))) in
  let error := jsum (map square (v3list (v3sub world_z_in_body_frame
                                                desired_world_z_in_body_frame))) in
  clip (exp (- error / (tracking_sigma + EPS))) (-1000) 1000.

Definition reward_orientation (x : Transform) : R :=
  let up := mkV3 0 0 1 in
  let rot_up := rotate up (row0_q (t_rot x)) in
  clip (jsum (map square [v_x rot_up; v_y rot_up])) (-1000) 1000.

Definition reward_torques (torques : list R) : R :=
  clip (jsum (map square torques)) (-1000) 1000.

Definition reward_joint_acceleration (joint_vel last_joint_vel : list R) (dt : R) : R :=
  clip (jsum (map square (map (fun d => d / (dt + EPS)) (vsub joint_vel last_joint_vel))))
       (-1000) 1000.

Definition reward_mechanical_work (torques velocities : list R) : R :=
  clip (jsum (map Rabs (zipw Rmult torques velocities))) (-1000) 1000.

Definition reward_action_rate (act last_act : list R) : R :=
  clip (jsum (map square (vsub act last_act))) (-1000) 1000.

Definition reward_tracking_lin_vel (commands : list R) (x : Transform) (xd : Motion)
    (tracking_sigma : R) : R :=
  let local_vel := rotate (row0_v (m_vel xd)) (quat_inv (row0_q (t_rot x))) in
  let lin_vel_error := jsum (map square [cmd commands 0 - v_x local_vel;
                                         cmd commands 1 - v_y local_vel]) in
  let lin_vel_reward := exp (- lin_vel_error / (tracking_sigma + EPS)) in
  clip lin_vel_reward (-1000) 1000.

Definition reward_tracking_ang_vel (commands : list R) (x : Transform) (xd : Motion)
    (tracking_sigma : R) : R :=
  let base_ang_vel := rotate (row0_v (m_ang xd)) (quat_inv (row0_q (t_rot x))) in
  let ang_vel_error := square (cmd commands 2 - v_z base_ang_vel) in
  clip (exp (- ang_vel_error / (tracking_sigma + EPS))) (-1000) 1000.

Definition reward_feet_air_time (air_time : list R) (first_contact : list bool)
    (commands : list R) (minimum_airtime : R) : R :=
  let rew_air_time := jsum (zipw (fun a f => (a - minimum_airtime) * b2R f)
                                 air_time first_contact) in
  let rew_air_time := rew_air_time * b2R (gt_b (normalize_norm (firstn 3 commands)) (5 / 100)) in
  clip rew_air_time (-1000) 1000.

Definition reward_abduction_angle (joint_angles desired_abduction_angles : list R) : R :=
  clip (jsum (map square (vsub (stride3_from1 joint_angles) desired_abduction_angles)))
       (-1000) 1000.

Definition reward_stand_still (commands joint_angles default_pose : list R)
    (command_threshold : R) : R :=
  clip (jsum (map Rabs (vsub joint_angles default_pose))
        * b2R (lt_b (normalize_norm (firstn 3 commands)) command_threshold))
       (-1000) 1000.

Definition reward_foot_slip (pipeline_state : PipelineState) (contact_filt : list bool)
    (feet_site_id lower_leg_body_id : list Z) : R :=
  clip (foot_slip_sum pipeline_state contact_filt feet_site_id lower_leg_body_id)
       (-1000) 1000.

Definition reward_termination (done : bool) (step step_threshold : Z) : bool :=
  done && (step <? step_threshold)%Z.

Definition reward_geom_collision (pipeline_state : PipelineState) (geom_ids : list Z) : R :=
  clip (collision_count pipeline_state geom_ids) (-1000) 1000.

End W.

(** ** The same lines over IEEE binary64

    JAX evaluates the catalog over floats; here the terms whose NaN
    behaviour the statements below are about, read over Rocq's primitive
    binary64 floats.  [jp.maximum] and [jp.minimum] propagate NaN. *)
Module F64.
Import Floats.PrimFloat.
Local Open Scope float_scope.
Local Set Warnings "-inexact-float".

Definition fmax (a b : float) : float :=
  if is_nan a || is_nan b then nan else if a <? b then b else a.
Definition fmin (a b : float) : float :=
  if is_nan a || is_nan b then nan else if b <? a then b else a.

Definition clip (x lo hi : float) : float := fmin (fmax x lo) hi.

(** [jp.sum]; XLA chooses the order of the additions.  The statements
    below use it only where every order gives the same result: on arrays of
    one entry, and on arrays holding a NaN (which makes any sum NaN). *)
Definition jsum (l : list float) : float := fold_right add zero l.

Definition EPS : float := 1e-6.

(** [rewards_test_k.reward_torques]. *)
Definition reward_torques (torques : list float) : float :=
  clip (jsum (map (fun t => t * t) torques) / 1200) 0 1.

(** [rewards_test_w.reward_torques]. *)
Definition reward_torques_w (torques : list float) : float :=
  clip (jsum (map (fun t => t * t) torques)) (-1000) 1000.

(** [rewards_test_k.reward_joint_acceleration]. *)
Definition reward_joint_acceleration (joint_vel last_joint_vel : list float) (dt : float) : float :=
  let acceleration :=
    jsum (map (fun d => d * d) (map (fun d => d / (dt + EPS))
                                    (zipw sub joint_vel last_joint_vel))) in
  clip (acceleration / 120000) 0 1.

(** [rewards_test_w.reward_joint_acceleration]. *)
Definition reward_joint_acceleration_w (joint_vel last_joint_vel : list float) (dt : float) : float :=
  clip (jsum (map (fun d => d * d) (map (fun d => d / (dt + EPS))
                                        (zipw sub joint_vel last_joint_vel))))
       (-1000) 1000.

End F64.

(** ** Derived quantities the statements below speak about *)

(** The squared tracking errors, as the three tracking terms compute them. *)
Definition lin_vel_error (commands : list R) (x : Transform) (xd : Motion) : R :=
  let local_vel := rotate (row0_v (m_vel xd)) (quat_inv (row0_q (t_rot x))) in
  jsum (map square [cmd commands 0 - v_x local_vel; cmd commands 1 - v_y local_vel]).

Definition ang_vel_error (commands : list R) (x : Transform) (xd : Motion) : R :=
  let base_ang_vel := rotate (row0_v (m_ang xd)) (quat_inv (row0_q (t_rot x))) in
  square (cmd commands 2 - v_z base_ang_vel).

Definition orientation_error (desired_world_z_in_body_frame : V3) (x : Transform) : R :=
  let world_z_in_body_frame := rotate (mkV3 0 0 1) (quat_inv (row0_q (t_rot x))) in
  jsum (map square (v3list (v3sub world_z_in_body_frame desired_world_z_in_body_frame))).

(** The planar (xy) norm of a command and the Euclidean norm of its first
    three components. *)
Definition planar_norm (commands : list R) : R :=
  sqrt (square (cmd commands 0) + square (cmd commands 1)).

Definition cmd3_norm (commands : list R) : R :=
  sqrt (jsum (map square (firstn 3 commands))).

(** The squared norm of a quaternion; brax's [rotate] is a rotation when
    it is 1. *)
Definition quat_norm2 (q : Quat) : R :=
  q_w q * q_w q + q_x q * q_x q + q_y q * q_y q + q_z q * q_z q.

(** A snapshot with one more contact. *)
Definition add_contact (c : Contact) (ps : PipelineState) : PipelineState :=
  mkState (site_xpos ps) (xpos ps) (xd ps) (c :: contact ps).

(** A contact that counts for the watched id [id]: it touches [id] and its
    distance is negative. *)
Definition hits (id : Z) (c : Contact) : bool := touches id c && lt_b (dist c) 0.

Fixpoint count_hits (geom_ids : list Z) (cs : list Contact) : nat :=
  match geom_ids with
  | [] => O
  | id :: rest => (length (filter (hits id) cs) + count_hits rest cs)%nat
  end.

(** Contacts used by the collision statements. *)
Definition contact_5_9 : Contact := mkContact 5 9 (- 1 / 100).

Definition collision_state (cs : list Contact) : PipelineState :=
  mkState [] [] (mkMotion [] []) cs.

(** * Properties *)

(** ** Facts about [clip] and the array helpers *)

Lemma clip_in (x lo hi : R) : lo <= hi -> lo <= clip x lo hi <= hi.
Proof.
  intros H; unfold clip, Rmin, Rmax.
  destruct (Rle_dec x lo); destruct (Rle_dec _ hi); lra.
Qed.

Lemma clip_id (x lo hi : R) : lo <= x <= hi -> clip x lo hi = x.
Proof.
  intros H; unfold clip, Rmin, Rmax.
  destruct (Rle_dec x lo); destruct (Rle_dec _ hi); lra.
Qed.

Lemma clip_above (x lo hi : R) : lo <= hi -> hi <= x -> clip x lo hi = hi.
Proof.
  intros H1 H2; unfold clip, Rmin, Rmax.
  destruct (Rle_dec x lo); destruct (Rle_dec _ hi); lra.
Qed.

Lemma clip_nonneg (x lo hi : R) : 0 <= lo <= hi -> 0 <= clip x lo hi.
Proof. intros H; pose proof (clip_in x lo hi); lra. Qed.

Lemma b2R_bounds (b : bool) : 0 <= b2R b <= 1.
Proof. destruct b; simpl; lra. Qed.

Lemma jsum_nonneg (l : list R) : Forall (fun x => 0 <= x) l -> 0 <= jsum l.
Proof.
  induction 1 as [|x l Hx _ IH]; simpl; lra.
Qed.

Lemma jsum_squares_nonneg (l : list R) : 0 <= jsum (map square l).
Proof.
  apply jsum_nonneg; apply Forall_forall; intros y Hy.
  apply in_map_iff in Hy as [z [<- _]]; unfold square; nra.
Qed.

Lemma jsum_abs_nonneg (l : list R) : 0 <= jsum (map Rabs l).
Proof.
  apply jsum_nonneg; apply Forall_forall; intros y Hy.
  apply in_map_iff in Hy as [z [<- _]]; apply Rabs_pos.
Qed.

(** ** C1: every term stays within its convention's bound *)

(** C1 (amended).  Over exact real arithmetic, for every input, each term of
    rewards_test_k.py lies in [0, 1] and each term of rewards_test_w.py lies
    in [-1000, 1000]; [reward_termination] is a boolean, read as 0 or 1. *)
Theorem catalog_within_bounds :
  (forall xd, 0 <= K.reward_lin_vel_z xd <= 1) /\
  (forall xd, 0 <= K.reward_ang_vel_xy xd <= 1) /\
  (forall d x s, 0 <= K.reward_tracking_orientation d x s <= 1) /\
  (forall x, 0 <= K.reward_orientation x <= 1) /\
  (forall t, 0 <= K.reward_torques t <= 1) /\
  (forall v lv dt, 0 <= K.reward_joint_acceleration v lv dt <= 1) /\
  (forall t v, 0 <= K.reward_mechanical_work t v <= 1) /\
  (forall a la, 0 <= K.reward_action_rate a la <= 1) /\
  (forall c x xd s, 0 <= K.reward_tracking_lin_vel c x xd s <= 1) /\
  (forall c x xd s, 0 <= K.reward_tracking_ang_vel c x xd s <= 1) /\
  (forall a f c m, 0 <= K.reward_feet_air_time a f c m <= 1) /\
  (forall j d, 0 <= K.reward_abduction_angle j d <= 1) /\
  (forall c j p t, 0 <= K.reward_stand_still c j p t <= 1) /\
  (forall ps cf fs ll, 0 <= K.reward_foot_slip ps cf fs ll <= 1) /\
  (forall dn s t, 0 <= b2R (K.reward_termination dn s t) <= 1) /\
  (forall ps ids, 0 <= K.reward_geom_collision ps ids <= 1) /\
  (forall xd, -1000 <= W.reward_lin_vel_z xd <= 1000) /\
  (forall xd, -1000 <= W.reward_ang_vel_xy xd <= 1000) /\
  (forall d x s, -1000 <= W.reward_tracking_orientation d x s <= 1000) /\
  (forall x, -1000 <= W.reward_orientation x <= 1000) /\
  (forall t, -1000 <= W.reward_torques t <= 1000) /\
  (forall v lv dt, -1000 <= W.reward_joint_acceleration v lv dt <= 1000) /\
  (forall t v, -1000 <= W.reward_mechanical_work t v <= 1000) /\
  (forall a la, -1000 <= W.reward_action_rate a la <= 1000) /\
  (forall c x xd s, -1000 <= W.reward_tracking_lin_vel c x xd s <= 1000) /\
  (forall c x xd s, -1000 <= W.reward_tracking_ang_vel c x xd s <= 1000) /\
  (forall a f c m, -1000 <= W.reward_feet_air_time a f c m <= 1000) /\
  (forall j d, -1000 <= W.reward_abduction_angle j d <= 1000) /\
  (forall c j p t, -1000 <= W.reward_stand_still c j p t <= 1000) /\
  (forall ps cf fs ll, -1000 <= W.reward_foot_slip ps cf fs ll <= 1000) /\
  (forall dn s t, -1000 <= b2R (W.reward_termination dn s t) <= 1000) /\
  (forall ps ids, -1000 <= W.reward_geom_collision ps ids <= 1000).
Proof.
  repeat split; intros;
    first [ match goal with |- context [b2R ?b] => destruct b; simpl; lra end
          | unfold K.reward_lin_vel_z, K.reward_ang_vel_xy, K.reward_tracking_orientation,
              K.reward_orientation, K.reward_torques, K.reward_joint_acceleration,
              K.reward_mechanical_work, K.reward_action_rate, K.reward_tracking_lin_vel,
              K.reward_tracking_ang_vel, K.reward_feet_air_time, K.reward_abduction_angle,
              K.reward_stand_still, K.reward_foot_slip, K.reward_geom_collision,
              W.reward_lin_vel_z, W.reward_ang_vel_xy, W.reward_tracking_orientation,
              W.reward_orientation, W.reward_torques, W.reward_joint_acceleration,
              W.reward_mechanical_work, W.reward_action_rate, W.reward_tracking_lin_vel,
              W.reward_tracking_ang_vel, W.reward_feet_air_time, W.reward_abduction_angle,
              W.reward_stand_still, W.reward_foot_slip, W.reward_geom_collision;
            cbv zeta; apply clip_in; lra ].
Qed.

Module F64Facts.
Import Floats.PrimFloat.
Local Open Scope float_scope.
Local Set Warnings "-inexact-float".

(** C1 (counterexample).  Over binary64 the bounds fail for finite inputs:
    with [dt = -1e-6] the denominator [dt + EPS] is exactly 0, unchanged
    joint velocities give [0 / 0 = NaN], and [jp.clip] passes NaN through,
    so [reward_joint_acceleration] is neither in [0, 1] (unit interval) nor
    in [-1000, 1000] (signed wide). *)
Lemma joint_acceleration_zero_denominator_not_in_bounds :
  ~ (forall joint_vel last_joint_vel dt,
        forallb is_finite (joint_vel ++ last_joint_vel ++ [dt]) = true ->
        ((0 <=? F64.reward_joint_acceleration joint_vel last_joint_vel dt)
         && (F64.reward_joint_acceleration joint_vel last_joint_vel dt <=? 1)) = true) /\
  ~ (forall joint_vel last_joint_vel dt,
        forallb is_finite (joint_vel ++ last_joint_vel ++ [dt]) = true ->
        ((-1000 <=? F64.reward_joint_acceleration_w joint_vel last_joint_vel dt)
         && (F64.reward_joint_acceleration_w joint_vel last_joint_vel dt <=? 1000)) = true).
Proof.
  split; intros H;
    specialize (H [0] [0] (-1e-6) ltac:(vm_compute; reflexivity));
    vm_compute in H; discriminate H.
Qed.

End F64Facts.

(** ** C2: the termination indicator *)

(** C2.  In both modules, [reward_termination done step step_threshold] is
    true exactly when [done] is true and [step < step_threshold]; it is false
    when [step = step_threshold]. *)
Theorem termination_iff (done : bool) (step step_threshold : Z) :
  (K.reward_termination done step step_threshold = true <->
     done = true /\ (step < step_threshold)%Z) /\
  (W.reward_termination done step step_threshold = true <->
     done = true /\ (step < step_threshold)%Z) /\
  K.reward_termination done step_threshold step_threshold = false /\
  W.reward_termination done step_threshold step_threshold = false.
Proof.
  unfold K.reward_termination, W.reward_termination.
  rewrite andb_true_iff, Z.ltb_lt, Z.ltb_irrefl, andb_false_r.
  repeat split; tauto.
Qed.

(** ** The command gate *)

Lemma gt_b_true (a b : R) : b < a -> gt_b a b = true.
Proof. intros H; unfold gt_b; destruct (Rlt_dec b a); [reflexivity | lra]. Qed.

Lemma gt_b_false (a b : R) : a <= b -> gt_b a b = false.
Proof. intros H; unfold gt_b; destruct (Rlt_dec b a); [lra | reflexivity]. Qed.

Lemma lt_b_true (a b : R) : a < b -> lt_b a b = true.
Proof. intros H; unfold lt_b; destruct (Rlt_dec a b); [reflexivity | lra]. Qed.

Lemma lt_b_false (a b : R) : b <= a -> lt_b a b = false.
Proof. intros H; unfold lt_b; destruct (Rlt_dec a b); [lra | reflexivity]. Qed.

Lemma allclose0_false (l : list R) (c : R) :
  In c l -> 1 / 100000000 < Rabs c -> allclose0 l = false.
Proof.
  intros Hin Hc; unfold allclose0.
  apply not_true_iff_false; rewrite forallb_forall; intros H.
  specialize (H c Hin); destruct (Rle_dec (Rabs c) _); [lra | discriminate].
Qed.

Lemma normalize_norm_nonneg (l : list R) : 0 <= normalize_norm l.
Proof.
  unfold normalize_norm, safe_norm; destruct (allclose0 l); [lra | apply sqrt_pos].
Qed.

Lemma normalize_norm_le (l : list R) : normalize_norm l <= sqrt (jsum (map square l)).
Proof.
  unfold normalize_norm, safe_norm; destruct (allclose0 l); [apply sqrt_pos | lra].
Qed.

(** A yaw-only command [0, 0, 1] has norm 1. *)
Lemma normalize_norm_yaw_only : normalize_norm (firstn 3 [0; 0; 1]) = 1.
Proof.
  cbn [firstn]; unfold normalize_norm, safe_norm.
  rewrite (allclose0_false _ 1) by (simpl; auto; rewrite Rabs_R1; lra).
  unfold jsum, square; cbn [map fold_right].
  replace (0 * 0 + (0 * 0 + (1 * 1 + 0))) with 1 by ring; apply sqrt_1.
Qed.

Lemma planar_norm_yaw_only : planar_norm [0; 0; 1] = 0.
Proof.
  unfold planar_norm, cmd, square; cbn [nth].
  replace (0 * 0 + 0 * 0) with 0 by ring; apply sqrt_0.
Qed.

Lemma clip_pos (x hi : R) : 0 < x -> 0 < hi -> 0 < clip x 0 hi.
Proof.
  intros H1 H2; unfold clip, Rmin, Rmax.
  destruct (Rle_dec x 0); destruct (Rle_dec _ hi); lra.
Qed.

Lemma jsum_abs_vsub_self (l : list R) : jsum (map Rabs (vsub l l)) = 0.
Proof.
  induction l as [|a l IH]; [reflexivity|].
  unfold vsub in *; cbn [zipw map jsum fold_right] in *; unfold jsum in IH.
  rewrite IH, Rminus_diag, Rabs_R0; ring.
Qed.

(** ** C3: feet_air_time's gate *)

(** C3 (counterexample).  A yaw-only command [0, 0, 1] has planar norm 0,
    yet [reward_feet_air_time] rewards a foot that lands after 1 s: the gate
    reads the norm of all three command components. *)
Lemma feet_air_time_yaw_command_rewarded :
  ~ (forall air_time first_contact commands minimum_airtime,
        planar_norm commands <= 5 / 100 ->
        K.reward_feet_air_time air_time first_contact commands minimum_airtime = 0).
Proof.
  intros H.
  specialize (H [1] [true] [0; 0; 1] (1 / 10)).
  rewrite planar_norm_yaw_only in H; specialize (H ltac:(lra)).
  revert H; unfold K.reward_feet_air_time; cbv zeta.
  rewrite normalize_norm_yaw_only, gt_b_true by lra.
  unfold jsum, b2R; cbn [zipw fold_right].
  rewrite clip_id by lra; lra.
Qed.

(** C3 (amended).  When the Euclidean norm of the first three command
    components (vx, vy, yaw rate) is at most 0.05, [reward_feet_air_time] is
    exactly 0 in both modules, whatever the air times and contacts. *)
Theorem feet_air_time_zero_small_command (air_time : list R) (first_contact : list bool)
    (commands : list R) (minimum_airtime : R) :
  cmd3_norm commands <= 5 / 100 ->
  K.reward_feet_air_time air_time first_contact commands minimum_airtime = 0 /\
  W.reward_feet_air_time air_time first_contact commands minimum_airtime = 0.
Proof.
  intros H; unfold cmd3_norm in H.
  pose proof (normalize_norm_le (firstn 3 commands)).
  unfold K.reward_feet_air_time, W.reward_feet_air_time; cbv zeta.
  rewrite gt_b_false by lra; unfold b2R; rewrite Rmult_0_r.
  split; rewrite clip_id by lra; lra.
Qed.

Lemma feet_air_time_zero_small_command_witness :
  cmd3_norm [0; 0; 0] <= 5 / 100 /\
  K.reward_feet_air_time [1; 2] [true; false] [0; 0; 0] (1 / 10) = 0 /\
  W.reward_feet_air_time [1; 2] [true; false] [0; 0; 0] (1 / 10) = 0.
Proof.
  assert (Hn : cmd3_norm [0; 0; 0] <= 5 / 100).
  { unfold cmd3_norm, jsum, square; cbn [firstn map fold_right].
    replace (0 * 0 + (0 * 0 + (0 * 0 + 0))) with 0 by ring; rewrite sqrt_0; lra. }
  split; [exact Hn|].
  exact (feet_air_time_zero_small_command [1; 2] [true; false] [0; 0; 0] (1 / 10) Hn).
Defined.

(** ** C4: stand_still's gate *)

(** C4 (counterexample).  With threshold 0.5 a yaw-only command [0, 0, 1]
    has planar norm 0 below the threshold, yet [reward_stand_still] is 0
    for a joint 1 rad away from its default, not [clip(1 / (12 pi), 0, 1)]:
    the gate reads the norm of all three command components. *)
Lemma stand_still_yaw_command_not_penalised :
  ~ (forall commands joint_angles default_pose command_threshold,
        planar_norm commands < command_threshold ->
        K.reward_stand_still commands joint_angles default_pose command_threshold =
        clip (jsum (map Rabs (vsub joint_angles default_pose)) / (12 * PI)) 0 1).
Proof.
  intros H.
  specialize (H [0; 0; 1] [1] [0] (1 / 2)).
  rewrite planar_norm_yaw_only in H; specialize (H ltac:(lra)).
  revert H; unfold K.reward_stand_still; cbv zeta.
  rewrite normalize_norm_yaw_only, lt_b_false by lra.
  unfold vsub, jsum, b2R; cbn [zipw map fold_right].
  rewrite Rminus_0_r, Rabs_R1, Rplus_0_r, Rmult_0_r.
  pose proof PI_RGT_0 as Hpi.
  assert (Hpos : 0 < clip (1 / (12 * PI)) 0 1).
  { apply clip_pos; [apply Rdiv_lt_0_compat; lra | lra]. }
  rewrite (clip_id (0 / (12 * PI))); [| unfold Rdiv; rewrite Rmult_0_l; lra].
  unfold Rdiv at 1; rewrite Rmult_0_l; lra.
Qed.

(** C4 (amended).  Write [n] for the norm brax's [math.normalize] reports for
    the first three command components and [S] for the sum of absolute
    joint-angle deviations.  When [n] is at least the threshold both modules
    return exactly 0; when [n] is below it they return [clip(S / (12 pi), 0, 1)]
    and [clip(S, -1000, 1000)].  The value is never negative, and it is 0 for
    the command [0, 0, 0] with joint angles equal to the default pose. *)
Theorem stand_still_gate (commands joint_angles default_pose : list R) (command_threshold : R) :
  let n := normalize_norm (firstn 3 commands) in
  let S := jsum (map Rabs (vsub joint_angles default_pose)) in
  (command_threshold <= n ->
     K.reward_stand_still commands joint_angles default_pose command_threshold = 0 /\
     W.reward_stand_still commands joint_angles default_pose command_threshold = 0) /\
  (n < command_threshold ->
     K.reward_stand_still commands joint_angles default_pose command_threshold =
       clip (S / (12 * PI)) 0 1 /\
     W.reward_stand_still commands joint_angles default_pose command_threshold =
       clip S (-1000) 1000) /\
  0 <= K.reward_stand_still commands joint_angles default_pose command_threshold /\
  0 <= W.reward_stand_still commands joint_angles default_pose command_threshold /\
  K.reward_stand_still [0; 0; 0] joint_angles joint_angles command_threshold = 0 /\
  W.reward_stand_still [0; 0; 0] joint_angles joint_angles command_threshold = 0.
Proof.
  cbv zeta.
  pose proof PI_RGT_0 as Hpi.
  pose proof (jsum_abs_nonneg (vsub joint_angles default_pose)) as HS.
  pose proof (b2R_bounds (lt_b (normalize_norm (firstn 3 commands)) command_threshold)).
  unfold K.reward_stand_still, W.reward_stand_still; cbv zeta.
  rewrite !jsum_abs_vsub_self, !Rmult_0_l.
  split; [|split; [|split; [|split; [|split]]]].
  - intros Hle; rewrite lt_b_false by lra; unfold b2R; rewrite Rmult_0_r.
    split; [rewrite clip_id; [unfold Rdiv; ring | unfold Rdiv; rewrite Rmult_0_l; lra]|].
    apply clip_id; lra.
  - intros Hlt; rewrite lt_b_true by lra; unfold b2R; rewrite Rmult_1_r; split; reflexivity.
  - apply clip_nonneg; lra.
  - unfold clip; apply Rmax_case_strong; intros; apply Rmin_case_strong; intros; nra.
  - rewrite clip_id; [unfold Rdiv; ring | unfold Rdiv; rewrite Rmult_0_l; lra].
  - apply clip_id; lra.
Qed.

(** ** C5: the exponential tracking terms *)

Lemma K_tracking_lin_vel_eq (commands : list R) (x : Transform) (xd : Motion) (s : R) :
  K.reward_tracking_lin_vel commands x xd s =
  clip (exp (- lin_vel_error commands x xd / (s + EPS))) 0 1.
Proof. reflexivity. Qed.

Lemma K_tracking_ang_vel_eq (commands : list R) (x : Transform) (xd : Motion) (s : R) :
  K.reward_tracking_ang_vel commands x xd s =
  clip (exp (- ang_vel_error commands x xd / (s + EPS))) 0 1.
Proof. reflexivity. Qed.

Lemma K_tracking_orientation_eq (d : V3) (x : Transform) (s : R) :
  K.reward_tracking_orientation d x s = clip (exp (- orientation_error d x / (s + EPS))) 0 1.
Proof. reflexivity. Qed.

Lemma W_tracking_lin_vel_eq (commands : list R) (x : Transform) (xd : Motion) (s : R) :
  W.reward_tracking_lin_vel commands x xd s =
  clip (exp (- lin_vel_error commands x xd / (s + EPS))) (-1000) 1000.
Proof. reflexivity. Qed.

Lemma W_tracking_ang_vel_eq (commands : list R) (x : Transform) (xd : Motion) (s : R) :
  W.reward_tracking_ang_vel commands x xd s =
  clip (exp (- ang_vel_error commands x xd / (s + EPS))) (-1000) 1000.
Proof. reflexivity. Qed.

Lemma W_tracking_orientation_eq (d : V3) (x : Transform) (s : R) :
  W.reward_tracking_orientation d x s =
  clip (exp (- orientation_error d x / (s + EPS))) (-1000) 1000.
Proof. reflexivity. Qed.

Lemma lin_vel_error_nonneg (c : list R) (x : Transform) (xd : Motion) :
  0 <= lin_vel_error c x xd.
Proof. apply jsum_squares_nonneg. Qed.

Lemma ang_vel_error_nonneg (c : list R) (x : Transform) (xd : Motion) :
  0 <= ang_vel_error c x xd.
Proof. unfold ang_vel_error, square; cbv zeta; apply Rle_0_sqr. Qed.

Lemma orientation_error_nonneg (d : V3) (x : Transform) : 0 <= orientation_error d x.
Proof. apply jsum_squares_nonneg. Qed.

(** The shape every tracking term shares: [exp(-e / (sigma + EPS))]. *)
Lemma track_exp_unit (e s : R) :
  0 <= e -> 0 < s + EPS -> 0 < exp (- e / (s + EPS)) <= 1.
Proof.
  intros He Hs; split; [apply exp_pos|].
  rewrite <- exp_0.
  assert (H : - e / (s + EPS) <= 0).
  { pose proof (Rinv_0_lt_compat _ Hs).
    replace (- e / (s + EPS)) with (- (e * / (s + EPS))) by (unfold Rdiv; ring).
    pose proof (Rmult_le_pos e _ He (Rlt_le _ _ H)); lra. }
  destruct (Rle_lt_or_eq _ _ H) as [Hlt | ->]; [left; apply exp_increasing; exact Hlt | lra].
Qed.

Lemma track_exp_decreasing (e1 e2 s : R) :
  e1 < e2 -> 0 < s + EPS -> exp (- e2 / (s + EPS)) < exp (- e1 / (s + EPS)).
Proof.
  intros He Hs; apply exp_increasing.
  pose proof (Rinv_0_lt_compat _ Hs).
  replace (- e1 / (s + EPS)) with (- (e1 * / (s + EPS))) by (unfold Rdiv; ring).
  replace (- e2 / (s + EPS)) with (- (e2 * / (s + EPS))) by (unfold Rdiv; ring).
  pose proof (Rmult_lt_compat_r _ _ _ H He); lra.
Qed.

Lemma track_exp_zero (s : R) : clip (exp (- 0 / (s + EPS))) 0 1 = 1.
Proof.
  unfold Rdiv; rewrite Ropp_0, Rmult_0_l, exp_0; apply clip_id; lra.
Qed.

Lemma track_clip_decreasing (e1 e2 s : R) :
  0 <= e1 -> e1 < e2 -> 0 < s + EPS ->
  clip (exp (- e2 / (s + EPS))) 0 1 < clip (exp (- e1 / (s + EPS))) 0 1.
Proof.
  intros H0 H1 Hs.
  pose proof (track_exp_unit e1 s H0 Hs); pose proof (track_exp_unit e2 s ltac:(lra) Hs).
  pose proof (track_exp_decreasing e1 e2 s H1 Hs).
  rewrite !clip_id by lra; lra.
Qed.

(** C5.  For every positive [tracking_sigma], each of the unit-interval
    tracking terms equals 1 when its tracking error is 0, and is strictly
    smaller for a strictly larger tracking error. *)
Theorem tracking_terms_peak_and_decrease (tracking_sigma : R) :
  0 < tracking_sigma ->
  (forall c x xd, lin_vel_error c x xd = 0 ->
     K.reward_tracking_lin_vel c x xd tracking_sigma = 1) /\
  (forall c1 x1 xd1 c2 x2 xd2, lin_vel_error c1 x1 xd1 < lin_vel_error c2 x2 xd2 ->
     K.reward_tracking_lin_vel c2 x2 xd2 tracking_sigma <
     K.reward_tracking_lin_vel c1 x1 xd1 tracking_sigma) /\
  (forall c x xd, ang_vel_error c x xd = 0 ->
     K.reward_tracking_ang_vel c x xd tracking_sigma = 1) /\
  (forall c1 x1 xd1 c2 x2 xd2, ang_vel_error c1 x1 xd1 < ang_vel_error c2 x2 xd2 ->
     K.reward_tracking_ang_vel c2 x2 xd2 tracking_sigma <
     K.reward_tracking_ang_vel c1 x1 xd1 tracking_sigma) /\
  (forall d x, orientation_error d x = 0 ->
     K.reward_tracking_orientation d x tracking_sigma = 1) /\
  (forall d1 x1 d2 x2, orientation_error d1 x1 < orientation_error d2 x2 ->
     K.reward_tracking_orientation d2 x2 tracking_sigma <
     K.reward_tracking_orientation d1 x1 tracking_sigma).
Proof.
  intros Hs; assert (Hd : 0 < tracking_sigma + EPS) by (unfold EPS; lra).
  repeat split; intros.
  - rewrite K_tracking_lin_vel_eq, H; apply track_exp_zero.
  - rewrite !K_tracking_lin_vel_eq; apply track_clip_decreasing; auto using lin_vel_error_nonneg.
  - rewrite K_tracking_ang_vel_eq, H; apply track_exp_zero.
  - rewrite !K_tracking_ang_vel_eq; apply track_clip_decreasing; auto using ang_vel_error_nonneg.
  - rewrite K_tracking_orientation_eq, H; apply track_exp_zero.
  - rewrite !K_tracking_orientation_eq; apply track_clip_decreasing;
      auto using orientation_error_nonneg.
Qed.

Lemma tracking_terms_peak_and_decrease_witness :
  0 < 1 / 4 /\
  K.reward_tracking_lin_vel [0; 0; 0] (mkTransform [] []) (mkMotion [] []) (1 / 4) = 1.
Proof.
  split; [lra|].
  apply (proj1 (tracking_terms_peak_and_decrease (1 / 4) ltac:(lra))).
  unfold lin_vel_error, jsum, square, cmd; cbn [map fold_right nth row0_v row0_q m_vel t_rot].
  unfold rotate, quat_inv, quat_identity, v3zero, v3add, v3scale, v3dot, v3cross; cbn.
  ring.
Defined.

(** ** Counting collisions *)

Lemma jsum_hits (id : Z) (cs : list Contact) :
  jsum (map (fun c => b2R (touches id c) * b2R (lt_b (dist c) 0)) cs) =
  INR (length (filter (hits id) cs)).
Proof.
  induction cs as [|c cs IH]; [reflexivity|].
  cbn [map jsum fold_right filter]; unfold jsum in IH; rewrite IH.
  unfold hits; destruct (touches id c), (lt_b (dist c) 0); cbn [andb length b2R];
    rewrite ?S_INR; ring.
Qed.

Lemma fold_collision (cs : list Contact) (geom_ids : list Z) (acc : R) :
  fold_left
    (fun acc id => acc + jsum (map (fun c => b2R (touches id c) * b2R (lt_b (dist c) 0)) cs))
    geom_ids acc = acc + INR (count_hits geom_ids cs).
Proof.
  revert acc; induction geom_ids as [|id ids IH]; intros acc; cbn [fold_left count_hits].
  - simpl; ring.
  - rewrite IH, jsum_hits, plus_INR; ring.
Qed.

Lemma collision_count_nat (ps : PipelineState) (geom_ids : list Z) :
  collision_count ps geom_ids = INR (count_hits geom_ids (contact ps)).
Proof. unfold collision_count; rewrite fold_collision; ring. Qed.

Lemma count_hits_cons (geom_ids : list Z) (c : Contact) (cs : list Contact) :
  count_hits geom_ids (c :: cs) =
  (count_hits geom_ids cs + length (filter (fun id => hits id c) geom_ids))%nat.
Proof.
  induction geom_ids as [|id ids IH]; [reflexivity|].
  cbn [count_hits filter]; rewrite IH.
  destruct (hits id c); cbn [length]; lia.
Qed.

Lemma collision_count_add (c : Contact) (ps : PipelineState) (geom_ids : list Z) :
  collision_count (add_contact c ps) geom_ids =
  collision_count ps geom_ids + INR (length (filter (fun id => hits id c) geom_ids)).
Proof.
  rewrite !collision_count_nat; unfold add_contact; cbn [contact].
  rewrite count_hits_cons, plus_INR; reflexivity.
Qed.

Lemma filter_hits_no_collision (id : Z) (cs : list Contact) :
  (forall c, In c cs -> 0 <= dist c) -> filter (hits id) cs = [].
Proof.
  intros H; induction cs as [|c cs IHc]; [reflexivity|].
  cbn [filter]; unfold hits at 1.
  rewrite (lt_b_false (dist c) 0) by (apply H; left; reflexivity).
  rewrite andb_false_r; apply IHc; intros; apply H; right; assumption.
Qed.

Lemma count_hits_no_collision (geom_ids : list Z) (cs : list Contact) :
  (forall c, In c cs -> 0 <= dist c) -> count_hits geom_ids cs = O.
Proof.
  intros H; induction geom_ids as [|id ids IH]; [reflexivity|].
  cbn [count_hits]; rewrite IH, filter_hits_no_collision by exact H; reflexivity.
Qed.

Lemma filter_length_pos {A : Type} (f : A -> bool) (l : list A) (x : A) :
  In x l -> f x = true -> (1 <= length (filter f l))%nat.
Proof.
  induction l as [|y l IH]; intros Hin Hf; [destruct Hin|].
  cbn [filter]; destruct Hin as [-> | Hin].
  - rewrite Hf; cbn [length]; lia.
  - destruct (f y); cbn [length]; [lia | auto].
Qed.

Lemma filter_repeat_length {A : Type} (f : A -> bool) (x : A) (n : nat) :
  f x = true -> length (filter f (repeat x n)) = n.
Proof.
  intros Hf; induction n as [|n IH]; [reflexivity|].
  cbn [repeat filter]; rewrite Hf; cbn [length]; rewrite IH; reflexivity.
Qed.

Lemma clip_strict_mono (a b hi : R) : 0 <= a -> a < hi -> a < b -> clip a 0 hi < clip b 0 hi.
Proof.
  intros H0 H1 H2; unfold clip, Rmin, Rmax.
  destruct (Rle_dec a 0); destruct (Rle_dec b 0);
  repeat match goal with |- context [Rle_dec ?x ?y] => destruct (Rle_dec x y) end; lra.
Qed.

Lemma clip_strict_mono_w (a b : R) :
  0 <= a -> a < 1000 -> a < b -> clip a (-1000) 1000 < clip b (-1000) 1000.
Proof.
  intros H0 H1 H2; unfold clip, Rmin, Rmax.
  destruct (Rle_dec a (-1000)); destruct (Rle_dec b (-1000));
  repeat match goal with |- context [Rle_dec ?x ?y] => destruct (Rle_dec x y) end; lra.
Qed.

Lemma hits_9_contact_5_9 : hits 9 contact_5_9 = true.
Proof.
  unfold hits, contact_5_9, touches; cbn [geom1 geom2 dist].
  rewrite lt_b_true by lra; reflexivity.
Qed.

Lemma INR_10 : INR 10 = 10.
Proof. rewrite INR_IZR_INZ; reflexivity. Qed.

Lemma INR_11 : INR 11 = 11.
Proof. rewrite INR_IZR_INZ; reflexivity. Qed.

Lemma INR_1000 : INR 1000 = 1000.
Proof. rewrite INR_IZR_INZ; apply f_equal; vm_compute; reflexivity. Qed.

Lemma collision_count_repeat_5_9 (n : nat) :
  collision_count (collision_state (repeat contact_5_9 n)) [9%Z] = INR n.
Proof.
  rewrite collision_count_nat; cbn [count_hits contact collision_state].
  rewrite filter_repeat_length by exact hits_9_contact_5_9; rewrite Nat.add_0_r; reflexivity.
Qed.

Lemma collision_count_add_5_9 (ps : PipelineState) :
  collision_count (add_contact contact_5_9 ps) [9%Z] = collision_count ps [9%Z] + 1.
Proof.
  rewrite collision_count_add; cbn [filter]; rewrite hits_9_contact_5_9; cbn [length].
  rewrite INR_1; reflexivity.
Qed.

Lemma K_geom_collision_ten_hits :
  K.reward_geom_collision (collision_state (repeat contact_5_9 10)) [9%Z] = 1.
Proof.
  unfold K.reward_geom_collision; rewrite collision_count_nat; cbn [count_hits contact collision_state].
  rewrite filter_repeat_length by exact hits_9_contact_5_9.
  rewrite Nat.add_0_r, INR_10; apply clip_above; lra.
Qed.

(** ** C6: geom_collision *)

(** C6 (counterexample).  Ten contacts of geoms 5 and 9 at distance -0.01
    with 9 watched already give the unit-interval value 1; an eleventh such
    contact leaves it at 1 instead of increasing it.  Likewise a thousand
    such contacts give the signed-wide value 1000, and one more leaves it at
    1000. *)
Lemma geom_collision_eleventh_contact_no_increase :
  ~ (forall ps geom_ids c,
        dist c < 0 -> (exists id, In id geom_ids /\ touches id c = true) ->
        K.reward_geom_collision ps geom_ids <
        K.reward_geom_collision (add_contact c ps) geom_ids) /\
  ~ (forall ps geom_ids c,
        dist c < 0 -> (exists id, In id geom_ids /\ touches id c = true) ->
        W.reward_geom_collision ps geom_ids <
        W.reward_geom_collision (add_contact c ps) geom_ids).
Proof.
  assert (Hd : dist contact_5_9 < 0) by (cbn; lra).
  split; intros H.
  - specialize (H (collision_state (repeat contact_5_9 10)) [9%Z] contact_5_9).
    specialize (H Hd (ex_intro _ 9%Z (conj (or_introl eq_refl) eq_refl))).
    rewrite K_geom_collision_ten_hits in H.
    unfold K.reward_geom_collision in H; rewrite collision_count_add in H.
    rewrite collision_count_nat in H; cbn [count_hits contact collision_state filter] in H.
    rewrite hits_9_contact_5_9, filter_repeat_length in H by exact hits_9_contact_5_9.
    cbn [length] in H; rewrite Nat.add_0_r, INR_10, INR_1 in H.
    rewrite clip_above in H by lra; lra.
  - specialize (H (collision_state (repeat contact_5_9 1000)) [9%Z] contact_5_9).
    specialize (H Hd (ex_intro _ 9%Z (conj (or_introl eq_refl) eq_refl))).
    unfold W.reward_geom_collision in H.
    rewrite collision_count_add_5_9, collision_count_repeat_5_9, INR_1000 in H.
    rewrite !clip_above in H by lra; lra.
Qed.

(** C6 (amended).  [reward_geom_collision] is 0 in both modules when no
    contact has a negative distance.  Adding a contact with negative
    distance that touches a watched id strictly increases the value exactly
    when (so only while) the accumulated count is below 10 (unit interval,
    where the clip saturates at 1) or below 1000 (signed wide, where the
    clip saturates at 1000).  For the contacts (5, 9) at -0.01 and (1, 2)
    at 0.5 with 9 watched, the unit-interval value is 0.1. *)
Theorem geom_collision_counts (ps : PipelineState) (geom_ids : list Z) :
  ((forall c, In c (contact ps) -> 0 <= dist c) ->
     K.reward_geom_collision ps geom_ids = 0 /\ W.reward_geom_collision ps geom_ids = 0) /\
  (forall c, dist c < 0 -> (exists id, In id geom_ids /\ touches id c = true) ->
     (K.reward_geom_collision ps geom_ids <
        K.reward_geom_collision (add_contact c ps) geom_ids <->
      collision_count ps geom_ids < 10) /\
     (W.reward_geom_collision ps geom_ids <
        W.reward_geom_collision (add_contact c ps) geom_ids <->
      collision_count ps geom_ids < 1000)) /\
  K.reward_geom_collision (collision_state [contact_5_9; mkContact 1 2 (1 / 2)]) [9%Z] = 1 / 10.
Proof.
  split; [|split].
  - intros H; unfold K.reward_geom_collision, W.reward_geom_collision.
    rewrite collision_count_nat, count_hits_no_collision by exact H; rewrite INR_0.
    split; rewrite clip_id; lra.
  - intros c Hd [id [Hin Ht]].
    assert (Hh : (1 <= length (filter (fun id => hits id c) geom_ids))%nat).
    { apply (filter_length_pos _ _ id Hin); unfold hits; rewrite Ht, lt_b_true by exact Hd;
      reflexivity. }
    apply le_INR in Hh; rewrite INR_1 in Hh.
    pose proof (collision_count_add c ps geom_ids) as Ha.
    pose proof (pos_INR (count_hits geom_ids (contact ps))) as Hp.
    rewrite <- collision_count_nat in Hp.
    unfold K.reward_geom_collision, W.reward_geom_collision; rewrite Ha.
    split; split; intros Hlt.
    + destruct (Rlt_dec (collision_count ps geom_ids) 10) as [?|Hge]; [assumption|].
      rewrite !clip_above in Hlt by lra; lra.
    + apply clip_strict_mono; lra.
    + destruct (Rlt_dec (collision_count ps geom_ids) 1000) as [?|Hge]; [assumption|].
      rewrite !clip_above in Hlt by lra; lra.
    + apply clip_strict_mono_w; lra.
  - unfold K.reward_geom_collision; rewrite collision_count_nat.
    cbn [count_hits contact collision_state filter].
    rewrite hits_9_contact_5_9.
    assert (hits 9 (mkContact 1 2 (1 / 2)) = false) as -> by reflexivity.
    cbn [length]; rewrite Nat.add_0_r, INR_1; apply clip_id; lra.
Qed.

(** ** C10: saturation of the unit-interval collision term *)

(** C10.  Once the accumulated count reaches 10 the unit-interval
    [reward_geom_collision] is exactly 1, and any further contact leaves it
    at 1.  A colliding contact adds one to the count for each watched id it
    touches: the contact (5, 9) at -0.01 with 5 and 9 both watched counts
    twice. *)
Theorem geom_collision_saturates (ps : PipelineState) (geom_ids : list Z) :
  (10 <= collision_count ps geom_ids ->
     K.reward_geom_collision ps geom_ids = 1 /\
     forall c, K.reward_geom_collision (add_contact c ps) geom_ids = 1) /\
  (forall c, dist c < 0 ->
     collision_count (add_contact c ps) geom_ids =
     collision_count ps geom_ids + INR (length (filter (fun id => touches id c) geom_ids))) /\
  collision_count (collision_state [contact_5_9]) [5%Z; 9%Z] = 2.
Proof.
  split; [|split].
  - intros H; unfold K.reward_geom_collision; split.
    + apply clip_above; lra.
    + intros c; rewrite collision_count_add.
      pose proof (pos_INR (length (filter (fun id => hits id c) geom_ids))).
      apply clip_above; lra.
  - intros c Hd; rewrite collision_count_add; do 3 f_equal.
    apply filter_ext; intros id; unfold hits; rewrite lt_b_true by exact Hd; apply andb_true_r.
  - rewrite collision_count_nat; cbn [count_hits contact collision_state filter].
    rewrite hits_9_contact_5_9.
    assert (hits 5 contact_5_9 = true) as ->.
    { unfold hits, contact_5_9, touches; cbn [geom1 geom2 dist].
      rewrite lt_b_true by lra; reflexivity. }
    reflexivity.
Qed.

(** ** C7: no validation of the snapshot *)

Module F64Nan.
Import Floats.PrimFloat Floats.SpecFloat Floats.FloatOps Floats.FloatAxioms.
Local Open Scope float_scope.

Lemma Prim2SF_nan : Prim2SF nan = S754_nan.
Proof. reflexivity. Qed.

Lemma nan_of_Prim2SF (x : float) : Prim2SF x = S754_nan -> x = nan.
Proof. intros H; apply Prim2SF_inj; rewrite H; reflexivity. Qed.

Lemma jsum_squares_nan (torques : list float) :
  In nan torques -> Prim2SF (F64.jsum (map (fun t => t * t) torques)) = S754_nan.
Proof.
  induction torques as [|t ts IH]; intros Hin; [destruct Hin|].
  cbn [map F64.jsum fold_right]; rewrite add_spec.
  destruct Hin as [-> | Hin].
  - rewrite mul_spec, Prim2SF_nan; reflexivity.
  - unfold F64.jsum in IH; rewrite (IH Hin).
    unfold SF64add; destruct (Prim2SF (t * t)); reflexivity.
Qed.

Lemma clip_nan (lo hi : float) : F64.clip nan lo hi = nan.
Proof. reflexivity. Qed.

(** C7 (counterexample).  The catalog raises nothing on a NaN input: the
    unit-interval [reward_torques] of the torques [NaN] returns NaN. *)
Lemma torques_nan_propagates :
  ~ (forall torques, In nan torques -> is_nan (F64.reward_torques torques) = false).
Proof.
  intros H; specialize (H [nan] (or_introl eq_refl)).
  vm_compute in H; discriminate H.
Qed.

(** C7 (amended).  The reward terms perform no validation of their inputs:
    when any torque is NaN, [reward_torques] returns NaN in both modules. *)
Theorem torques_nan_result (torques : list float) :
  In nan torques -> F64.reward_torques torques = nan /\ F64.reward_torques_w torques = nan.
Proof.
  intros Hin; pose proof (jsum_squares_nan torques Hin) as Hs.
  apply nan_of_Prim2SF in Hs.
  unfold F64.reward_torques, F64.reward_torques_w; rewrite Hs.
  assert (Hd : nan / 1200 = nan) by (apply nan_of_Prim2SF; rewrite div_spec; reflexivity).
  rewrite Hd; split; apply clip_nan.
Qed.

Lemma torques_nan_result_witness :
  In nan [1; nan] /\ F64.reward_torques [1; nan] = nan /\ F64.reward_torques_w [1; nan] = nan.
Proof.
  assert (H : In nan [1; nan]) by (right; left; reflexivity).
  split; [exact H | exact (torques_nan_result [1; nan] H)].
Defined.

End F64Nan.

(** ** C8: zero [dt] and zero [tracking_sigma] *)

(** C8.  With [dt = 0] and [tracking_sigma = 0] every division still has
    the nonzero denominator [EPS]: [reward_joint_acceleration] evaluates to
    the clip of the summed squared velocity changes divided by [EPS], and
    the tracking terms to the clip of [exp(-error / EPS)], in both modules. *)
Theorem zero_dt_and_sigma_guarded (joint_vel last_joint_vel : list R) (commands : list R)
    (x : Transform) (xd : Motion) (d : V3) :
  0 + EPS <> 0 /\
  K.reward_joint_acceleration joint_vel last_joint_vel 0 =
    clip (jsum (map square (map (fun v => v / EPS) (vsub joint_vel last_joint_vel))) / 120000)
         0 1 /\
  W.reward_joint_acceleration joint_vel last_joint_vel 0 =
    clip (jsum (map square (map (fun v => v / EPS) (vsub joint_vel last_joint_vel))))
         (-1000) 1000 /\
  K.reward_tracking_lin_vel commands x xd 0 =
    clip (exp (- lin_vel_error commands x xd / EPS)) 0 1 /\
  K.reward_tracking_ang_vel commands x xd 0 =
    clip (exp (- ang_vel_error commands x xd / EPS)) 0 1 /\
  K.reward_tracking_orientation d x 0 = clip (exp (- orientation_error d x / EPS)) 0 1 /\
  W.reward_tracking_lin_vel commands x xd 0 =
    clip (exp (- lin_vel_error commands x xd / EPS)) (-1000) 1000 /\
  W.reward_tracking_ang_vel commands x xd 0 =
    clip (exp (- ang_vel_error commands x xd / EPS)) (-1000) 1000 /\
  W.reward_tracking_orientation d x 0 =
    clip (exp (- orientation_error d x / EPS)) (-1000) 1000.
Proof.
  rewrite K_tracking_lin_vel_eq, K_tracking_ang_vel_eq, K_tracking_orientation_eq,
    W_tracking_lin_vel_eq, W_tracking_ang_vel_eq, W_tracking_orientation_eq.
  unfold K.reward_joint_acceleration, W.reward_joint_acceleration; cbv zeta.
  rewrite !Rplus_0_l.
  repeat split; try reflexivity.
  unfold EPS; lra.
Qed.

(** ** C9: tracking and termination agree across the two catalogs *)

Lemma lin_vel_error_unit_command :
  lin_vel_error [1; 0; 0] (mkTransform [] []) (mkMotion [] []) = 1.
Proof.
  unfold lin_vel_error, jsum, square, cmd; cbn [map fold_right nth row0_v row0_q m_vel t_rot].
  unfold rotate, quat_inv, quat_identity, v3zero, v3add, v3scale, v3dot, v3cross; cbn.
  ring.
Qed.

Lemma clip_w_above_one (v : R) : 1 < v -> 1 < clip v (-1000) 1000.
Proof.
  intros H; unfold clip, Rmin, Rmax.
  destruct (Rle_dec v (-1000));
  repeat match goal with |- context [Rle_dec ?x ?y] => destruct (Rle_dec x y) end; lra.
Qed.

(** C9 (counterexample).  With [tracking_sigma = -1] the exponential of
    [reward_tracking_lin_vel] exceeds 1 for the command [1, 0, 0] at rest:
    the unit-interval module clips it to 1, the signed-wide one keeps it. *)
Lemma tracking_negative_sigma_differs :
  ~ (forall commands x xd tracking_sigma,
        K.reward_tracking_lin_vel commands x xd tracking_sigma =
        W.reward_tracking_lin_vel commands x xd tracking_sigma).
Proof.
  intros H.
  specialize (H [1; 0; 0] (mkTransform [] []) (mkMotion [] []) (-1)).
  rewrite K_tracking_lin_vel_eq, W_tracking_lin_vel_eq, lin_vel_error_unit_command in H.
  assert (He : Ropp 1 / (-1 + EPS) = 1000000 / 999999) by (unfold EPS; field).
  rewrite He in H.
  assert (Hv : 1 < exp (1000000 / 999999)) by (rewrite <- exp_0; apply exp_increasing; lra).
  rewrite clip_above in H by lra.
  pose proof (clip_w_above_one _ Hv); lra.
Qed.

(** C9 (amended).  For every [tracking_sigma >= 0] (the configuration
    requires it positive) and every other input, the two modules' tracking
    terms compute the same value; [reward_termination] is the same in both
    for every input. *)
Theorem tracking_and_termination_agree (tracking_sigma : R) :
  0 <= tracking_sigma ->
  (forall c x xd, K.reward_tracking_lin_vel c x xd tracking_sigma =
                  W.reward_tracking_lin_vel c x xd tracking_sigma) /\
  (forall c x xd, K.reward_tracking_ang_vel c x xd tracking_sigma =
                  W.reward_tracking_ang_vel c x xd tracking_sigma) /\
  (forall d x, K.reward_tracking_orientation d x tracking_sigma =
               W.reward_tracking_orientation d x tracking_sigma) /\
  (forall done step step_threshold,
     K.reward_termination done step step_threshold =
     W.reward_termination done step step_threshold).
Proof.
  intros Hs; assert (Hd : 0 < tracking_sigma + EPS) by (unfold EPS; lra).
  split; [|split; [|split]].
  - intros c x' m; rewrite K_tracking_lin_vel_eq, W_tracking_lin_vel_eq.
    pose proof (track_exp_unit _ _ (lin_vel_error_nonneg c x' m) Hd).
    rewrite !clip_id by lra; reflexivity.
  - intros c x' m; rewrite K_tracking_ang_vel_eq, W_tracking_ang_vel_eq.
    pose proof (track_exp_unit _ _ (ang_vel_error_nonneg c x' m) Hd).
    rewrite !clip_id by lra; reflexivity.
  - intros d x'; rewrite K_tracking_orientation_eq, W_tracking_orientation_eq.
    pose proof (track_exp_unit _ _ (orientation_error_nonneg d x') Hd).
    rewrite !clip_id by lra; reflexivity.
  - intros; reflexivity.
Qed.

Lemma tracking_and_termination_agree_witness :
  0 <= 1 / 4 /\
  (forall c x xd, K.reward_tracking_lin_vel c x xd (1 / 4) =
                  W.reward_tracking_lin_vel c x xd (1 / 4)).
Proof.
  split; [lra|].
  exact (proj1 (tracking_and_termination_agree (1 / 4) ltac:(lra))).
Defined.

(** * Further properties of the catalogs *)

(** ** The unit-interval terms are the signed-wide terms rescaled *)

Lemma clip_below (x lo hi : R) : lo <= hi -> x <= lo -> clip x lo hi = lo.
Proof.
  intros H1 H2; unfold clip, Rmin, Rmax.
  destruct (Rle_dec x lo); destruct (Rle_dec _ hi); lra.
Qed.

Lemma div_ge_1 (r d : R) : 0 < d -> d <= r -> 1 <= r / d.
Proof.
  intros Hd Hr; apply (Rmult_le_reg_r d); [exact Hd|].
  unfold Rdiv; rewrite Rmult_assoc, Rinv_l, Rmult_1_r by lra; lra.
Qed.

Lemma div_le_0 (r d : R) : 0 < d -> r <= 0 -> r / d <= 0.
Proof.
  intros Hd Hr; unfold Rdiv.
  pose proof (Rinv_0_lt_compat _ Hd).
  replace (r * / d) with (- ((- r) * / d)) by ring.
  pose proof (Rmult_le_pos (- r) (/ d) ltac:(lra) ltac:(lra)); lra.
Qed.

(** Clipping to [-1000, 1000] first changes nothing once the value is
    divided by at most 1000 and clipped to [0, 1]. *)
Lemma clip_wide_then_unit (r d : R) :
  0 < d <= 1000 -> clip (clip r (-1000) 1000 / d) 0 1 = clip (r / d) 0 1.
Proof.
  intros Hd.
  destruct (Rle_dec 1000 r) as [Hhi | Hhi].
  - rewrite (clip_above r) by lra.
    rewrite (clip_above (1000 / d)) by (try apply div_ge_1; lra).
    rewrite (clip_above (r / d)) by (try apply div_ge_1; lra); reflexivity.
  - destruct (Rle_dec r (-1000)) as [Hlo | Hlo].
    + rewrite (clip_below r) by lra.
      rewrite (clip_below (-1000 / d)) by (try apply div_le_0; lra).
      rewrite (clip_below (r / d)) by (try apply div_le_0; lra); reflexivity.
    + rewrite (clip_id r) by lra; reflexivity.
Qed.

Lemma clip_wide_then_unit_1 (r : R) : clip (clip r (-1000) 1000) 0 1 = clip r 0 1.
Proof.
  replace (clip r (-1000) 1000) with (clip r (-1000) 1000 / 1) by field.
  rewrite clip_wide_then_unit by lra; f_equal; field.
Qed.

(** X1.  For every input, each unit-interval term with a divisor of at most
    1000 is the signed-wide term divided by that divisor and clipped to
    [0, 1]; the tracking terms are the signed-wide ones clipped to [0, 1]. *)
Theorem unit_terms_from_wide_terms :
  (forall xd, K.reward_lin_vel_z xd = clip (W.reward_lin_vel_z xd / 4) 0 1) /\
  (forall xd, K.reward_ang_vel_xy xd = clip (W.reward_ang_vel_xy xd / 25) 0 1) /\
  (forall x, K.reward_orientation x = clip (W.reward_orientation x / 2) 0 1) /\
  (forall t v, K.reward_mechanical_work t v = clip (W.reward_mechanical_work t v / 600) 0 1) /\
  (forall a la, K.reward_action_rate a la = clip (W.reward_action_rate a la / 48) 0 1) /\
  (forall a f c m, K.reward_feet_air_time a f c m = clip (W.reward_feet_air_time a f c m / 2) 0 1) /\
  (forall j d, K.reward_abduction_angle j d = clip (W.reward_abduction_angle j d / PI ^ 2) 0 1) /\
  (forall c j p t, K.reward_stand_still c j p t =
                   clip (W.reward_stand_still c j p t / (12 * PI)) 0 1) /\
  (forall ps cf fs ll, K.reward_foot_slip ps cf fs ll =
                       clip (W.reward_foot_slip ps cf fs ll / 16) 0 1) /\
  (forall ps ids, K.reward_geom_collision ps ids = clip (W.reward_geom_collision ps ids / 10) 0 1) /\
  (forall d x s, K.reward_tracking_orientation d x s =
                 clip (W.reward_tracking_orientation d x s) 0 1) /\
  (forall c x xd s, K.reward_tracking_lin_vel c x xd s =
                    clip (W.reward_tracking_lin_vel c x xd s) 0 1) /\
  (forall c x xd s, K.reward_tracking_ang_vel c x xd s =
                    clip (W.reward_tracking_ang_vel c x xd s) 0 1).
Proof.
  pose proof PI_RGT_0; pose proof PI_4.
  assert (Hpi2 : 0 < PI ^ 2 <= 1000) by (split; [apply pow_lt; lra | simpl; nra]).
  repeat split; intros;
    unfold K.reward_lin_vel_z, K.reward_ang_vel_xy, K.reward_orientation,
      K.reward_mechanical_work, K.reward_action_rate, K.reward_feet_air_time,
      K.reward_abduction_angle, K.reward_stand_still, K.reward_foot_slip,
      K.reward_geom_collision, K.reward_tracking_orientation, K.reward_tracking_lin_vel,
      K.reward_tracking_ang_vel,
      W.reward_lin_vel_z, W.reward_ang_vel_xy, W.reward_orientation,
      W.reward_mechanical_work, W.reward_action_rate, W.reward_feet_air_time,
      W.reward_abduction_angle, W.reward_stand_still, W.reward_foot_slip,
      W.reward_geom_collision, W.reward_tracking_orientation, W.reward_tracking_lin_vel,
      W.reward_tracking_ang_vel; cbv zeta;
    first [ rewrite clip_wide_then_unit_1; reflexivity
          | rewrite clip_wide_then_unit; [reflexivity | lra] ].
Qed.

Lemma clip_rescale_iff (r d : R) :
  0 <= r -> 1000 < d ->
  (clip (r / d) 0 1 = clip (clip r (-1000) 1000 / d) 0 1 <-> r <= 1000).
Proof.
  intros Hr Hd; split; intros H.
  - destruct (Rle_dec r 1000) as [?|Hgt]; [assumption|exfalso].
    rewrite (clip_above r) in H by lra.
    assert (Hq : 1000 / d < r / d)
      by (unfold Rdiv; apply Rmult_lt_compat_r; [apply Rinv_0_lt_compat; lra | lra]).
    assert (H1 : 0 <= 1000 / d < 1).
    { split; [unfold Rdiv; apply Rmult_le_pos; [lra | left; apply Rinv_0_lt_compat; lra]|].
      apply (Rmult_lt_reg_r d); [lra|]; unfold Rdiv; rewrite Rmult_assoc, Rinv_l by lra; lra. }
    rewrite (clip_id (1000 / d)) in H by lra.
    destruct (Rle_dec 1 (r / d)).
    + rewrite clip_above in H by lra; lra.
    + rewrite clip_id in H by lra; lra.
  - rewrite (clip_id r) by lra; reflexivity.
Qed.

(** X2.  [reward_torques] (divisor 1200) and [reward_joint_acceleration]
    (divisor 120000) are the signed-wide terms rescaled exactly when (so
    only while) the raw sum of squares is at most 1000: above it the
    signed-wide clip has already cut the value.  E.g. the torques [40] give
    1 in the unit-interval module but clip(1000 / 1200, 0, 1) = 5/6 from
    the signed-wide value, and the joint velocities [1] after [0] with
    [dt = 0] give values that differ in the same way. *)
Theorem torques_rescale_only_below_wide_bound :
  (forall t,
     K.reward_torques t = clip (W.reward_torques t / 1200) 0 1 <->
     jsum (map square t) <= 1000) /\
  (forall v lv dt,
     K.reward_joint_acceleration v lv dt = clip (W.reward_joint_acceleration v lv dt / 120000) 0 1 <->
     jsum (map square (map (fun d => d / (dt + EPS)) (vsub v lv))) <= 1000) /\
  K.reward_torques [40] = 1 /\ clip (W.reward_torques [40] / 1200) 0 1 = 5 / 6 /\
  K.reward_joint_acceleration [1] [0] 0 <> clip (W.reward_joint_acceleration [1] [0] 0 / 120000) 0 1.
Proof.
  assert (HJ : forall v lv dt,
     K.reward_joint_acceleration v lv dt = clip (W.reward_joint_acceleration v lv dt / 120000) 0 1 <->
     jsum (map square (map (fun d => d / (dt + EPS)) (vsub v lv))) <= 1000).
  { intros v lv dt; unfold K.reward_joint_acceleration, W.reward_joint_acceleration; cbv zeta.
    apply clip_rescale_iff; [apply jsum_squares_nonneg | lra]. }
  split; [|split; [exact HJ | split; [|split]]].
  - intros t; unfold K.reward_torques, W.reward_torques.
    apply clip_rescale_iff; [apply jsum_squares_nonneg | lra].
  - unfold K.reward_torques, jsum, square; cbn [map fold_right].
    apply clip_above; lra.
  - unfold W.reward_torques, jsum, square; cbn [map fold_right].
    rewrite (clip_above (40 * 40 + 0)) by lra.
    rewrite clip_id by lra; field.
  - rewrite HJ; unfold vsub, jsum, square, EPS; cbn [zipw map fold_right].
    replace ((1 - 0) / (0 + 1 / 1000000)) with 1000000 by field; lra.
Qed.

(** ** brax's [rotate] *)

Lemma rotate_back_general (v : V3) (q : Quat) :
  rotate (rotate v q) (quat_inv q) = v3scale (quat_norm2 q * quat_norm2 q) v.
Proof.
  destruct v as [a b c], q as [w x y z].
  unfold rotate, quat_inv, quat_norm2, v3add, v3scale, v3dot, v3cross; cbn.
  f_equal; ring.
Qed.

Lemma rotate_norm_general (v : V3) (q : Quat) :
  v3dot (rotate v q) (rotate v q) = (quat_norm2 q * quat_norm2 q) * v3dot v v.
Proof.
  destruct v as [a b c], q as [w x y z].
  unfold rotate, quat_norm2, v3add, v3scale, v3dot, v3cross; cbn.
  ring.
Qed.

Lemma quat_norm2_inv (q : Quat) : quat_norm2 (quat_inv q) = quat_norm2 q.
Proof. destruct q; unfold quat_norm2, quat_inv; cbn; ring. Qed.

Lemma quat_inv_inv (q : Quat) : quat_inv (quat_inv q) = q.
Proof. destruct q; unfold quat_inv; cbn; f_equal; ring. Qed.

Lemma v3scale_1 (v : V3) : v3scale 1 v = v.
Proof. destruct v; unfold v3scale; cbn; f_equal; ring. Qed.

(** X3.  For a unit quaternion [q], [math.rotate] preserves the length of
    every vector, and rotating by [quat_inv q] undoes rotating by [q] in
    either order: moving a vector into the body frame and back returns it. *)
Theorem rotate_unit_isometry (q : Quat) :
  quat_norm2 q = 1 ->
  (forall v, v3dot (rotate v q) (rotate v q) = v3dot v v) /\
  (forall v, rotate (rotate v q) (quat_inv q) = v) /\
  (forall v, rotate (rotate v (quat_inv q)) q = v).
Proof.
  intros Hq; split; [|split]; intros v.
  - rewrite rotate_norm_general, Hq; ring.
  - rewrite rotate_back_general, Hq, Rmult_1_l; apply v3scale_1.
  - rewrite <- (quat_inv_inv q) at 2.
    rewrite rotate_back_general, quat_norm2_inv, Hq, Rmult_1_l; apply v3scale_1.
Qed.

Lemma rotate_unit_isometry_witness :
  quat_norm2 (mkQ 0 1 0 0) = 1 /\
  (forall v, v3dot (rotate v (mkQ 0 1 0 0)) (rotate v (mkQ 0 1 0 0)) = v3dot v v) /\
  (forall v, rotate (rotate v (mkQ 0 1 0 0)) (quat_inv (mkQ 0 1 0 0)) = v) /\
  (forall v, rotate (rotate v (quat_inv (mkQ 0 1 0 0))) (mkQ 0 1 0 0) = v).
Proof.
  assert (H : quat_norm2 (mkQ 0 1 0 0) = 1) by (unfold quat_norm2; cbn; ring).
  split; [exact H | exact (rotate_unit_isometry (mkQ 0 1 0 0) H)].
Defined.

(** ** The orientation penalty *)

Lemma orientation_raw_eq (x : Transform) :
  let r := rotate (mkV3 0 0 1) (row0_q (t_rot x)) in
  K.reward_orientation x = clip ((square (v_x r) + square (v_y r)) / 2) 0 1 /\
  W.reward_orientation x = clip (square (v_x r) + square (v_y r)) (-1000) 1000.
Proof.
  cbv zeta; unfold K.reward_orientation, W.reward_orientation, jsum; cbv zeta; cbn [map fold_right].
  rewrite Rplus_0_r; split; reflexivity.
Qed.

(** X4.  When the base quaternion has unit norm, the squared planar part of
    the rotated up vector is at most 1, so the unit-interval orientation
    penalty never exceeds 1/2 and the signed-wide one never exceeds 1. *)
Theorem orientation_penalty_unit_quat_bound (x : Transform) :
  quat_norm2 (row0_q (t_rot x)) = 1 ->
  K.reward_orientation x <= 1 / 2 /\ W.reward_orientation x <= 1.
Proof.
  intros Hq; destruct (orientation_raw_eq x) as [-> ->].
  pose proof (rotate_norm_general (mkV3 0 0 1) (row0_q (t_rot x))) as Hn.
  rewrite Hq in Hn.
  set (r := rotate (mkV3 0 0 1) (row0_q (t_rot x))) in *.
  unfold v3dot in Hn; cbn [v_x v_y v_z] in Hn; unfold square.
  assert (Hz : 0 <= v_z r * v_z r) by apply Rle_0_sqr.
  assert (Hx : 0 <= v_x r * v_x r) by apply Rle_0_sqr.
  assert (Hy : 0 <= v_y r * v_y r) by apply Rle_0_sqr.
  split; rewrite clip_id by lra; lra.
Qed.

Lemma orientation_penalty_unit_quat_bound_witness :
  quat_norm2 (row0_q (t_rot (mkTransform [] [mkQ 0 0 0 1]))) = 1 /\
  K.reward_orientation (mkTransform [] [mkQ 0 0 0 1]) <= 1 / 2 /\
  W.reward_orientation (mkTransform [] [mkQ 0 0 0 1]) <= 1.
Proof.
  assert (H : quat_norm2 (row0_q (t_rot (mkTransform [] [mkQ 0 0 0 1]))) = 1)
    by (unfold quat_norm2; cbn; ring).
  split; [exact H | exact (orientation_penalty_unit_quat_bound _ H)].
Defined.

(** X5.  The orientation penalty is 0 in both modules for every quaternion
    with no x and y part (a pure yaw) and for every quaternion with no w and
    z part (a half turn about a horizontal axis, which turns the base upside
    down): the rotated up vector has no planar part in either case. *)
Theorem orientation_penalty_zero_poses (x : Transform) :
  (q_x (row0_q (t_rot x)) = 0 /\ q_y (row0_q (t_rot x)) = 0) \/
  (q_w (row0_q (t_rot x)) = 0 /\ q_z (row0_q (t_rot x)) = 0) ->
  K.reward_orientation x = 0 /\ W.reward_orientation x = 0.
Proof.
  intros H; destruct (orientation_raw_eq x) as [-> ->].
  destruct (row0_q (t_rot x)) as [w a b z]; cbn [q_w q_x q_y q_z] in H.
  unfold rotate, v3add, v3scale, v3dot, v3cross, square; cbn [v_x v_y v_z q_w q_x q_y q_z].
  destruct H as [[-> ->] | [-> ->]];
    (replace (_ + _) with 0 by ring); rewrite ?clip_id; try lra; unfold Rdiv; ring.
Qed.

Lemma orientation_penalty_zero_poses_witness :
  (q_w (row0_q (t_rot (mkTransform [] [mkQ 0 1 0 0]))) = 0 /\
   q_z (row0_q (t_rot (mkTransform [] [mkQ 0 1 0 0]))) = 0) /\
  K.reward_orientation (mkTransform [] [mkQ 0 1 0 0]) = 0 /\
  W.reward_orientation (mkTransform [] [mkQ 0 1 0 0]) = 0.
Proof.
  assert (H : q_w (row0_q (t_rot (mkTransform [] [mkQ 0 1 0 0]))) = 0 /\
              q_z (row0_q (t_rot (mkTransform [] [mkQ 0 1 0 0]))) = 0) by (split; reflexivity).
  split; [exact H | exact (orientation_penalty_zero_poses _ (or_intror H))].
Defined.

(** ** Yaw-only base rotations *)

Lemma rotate_yaw_inv (v : V3) (w z : R) :
  rotate v (quat_inv (mkQ w 0 0 z)) =
  mkV3 ((w * w - z * z) * v_x v + 2 * w * z * v_y v)
       ((w * w - z * z) * v_y v - 2 * w * z * v_x v)
       ((w * w + z * z) * v_z v).
Proof.
  destruct v as [a b c]; unfold rotate, quat_inv, v3add, v3scale, v3dot, v3cross; cbn.
  f_equal; ring.
Qed.

Lemma identity_transform_rot : row0_q (t_rot (mkTransform [] [])) = mkQ 1 0 0 0.
Proof. reflexivity. Qed.

Lemma orientation_error_yaw (x : Transform) (w z : R) :
  row0_q (t_rot x) = mkQ w 0 0 z ->
  orientation_error (mkV3 0 0 1) x = square ((w * w + z * z) - 1).
Proof.
  intros Hq; unfold orientation_error; rewrite Hq, rotate_yaw_inv.
  unfold v3list, v3sub, jsum, square; cbn; ring.
Qed.

Lemma ang_vel_error_yaw (c : list R) (x : Transform) (xd : Motion) (w z : R) :
  row0_q (t_rot x) = mkQ w 0 0 z ->
  ang_vel_error c x xd = square (cmd c 2 - (w * w + z * z) * v_z (row0_v (m_ang xd))).
Proof.
  intros Hq; unfold ang_vel_error; rewrite Hq, rotate_yaw_inv; reflexivity.
Qed.

Lemma lin_vel_error_yaw (c : list R) (x : Transform) (xd : Motion) (w z : R) :
  row0_q (t_rot x) = mkQ w 0 0 z -> cmd c 0 = 0 -> cmd c 1 = 0 ->
  lin_vel_error c x xd =
  (w * w + z * z) * (w * w + z * z) *
  (square (v_x (row0_v (m_vel xd))) + square (v_y (row0_v (m_vel xd)))).
Proof.
  intros Hq H0 H1; unfold lin_vel_error; rewrite Hq, rotate_yaw_inv, H0, H1.
  unfold jsum, square; cbn; ring.
Qed.

(** X6.  When the base rotation is a unit quaternion with no x and y part
    (the robot is level and only its heading differs), the heading does not
    matter to the tracking terms: the orientation tracking reward towards an
    upright target is 1, the yaw-rate tracking reward is the one of the
    identity pose, and so is the linear-velocity tracking reward under a
    command with no planar part.  This holds in both catalogs and for every
    tracking sigma with [sigma + EPS <> 0] (at [sigma = -EPS] the code
    divides by 0). *)
Theorem tracking_terms_heading_invariant (x : Transform) :
  q_x (row0_q (t_rot x)) = 0 -> q_y (row0_q (t_rot x)) = 0 ->
  q_w (row0_q (t_rot x)) * q_w (row0_q (t_rot x)) +
  q_z (row0_q (t_rot x)) * q_z (row0_q (t_rot x)) = 1 ->
  (forall s, s + EPS <> 0 ->
     K.reward_tracking_orientation (mkV3 0 0 1) x s = 1 /\
     W.reward_tracking_orientation (mkV3 0 0 1) x s = 1) /\
  (forall c xd s, s + EPS <> 0 ->
     K.reward_tracking_ang_vel c x xd s = K.reward_tracking_ang_vel c (mkTransform [] []) xd s /\
     W.reward_tracking_ang_vel c x xd s = W.reward_tracking_ang_vel c (mkTransform [] []) xd s) /\
  (forall c xd s, s + EPS <> 0 -> cmd c 0 = 0 -> cmd c 1 = 0 ->
     K.reward_tracking_lin_vel c x xd s = K.reward_tracking_lin_vel c (mkTransform [] []) xd s /\
     W.reward_tracking_lin_vel c x xd s = W.reward_tracking_lin_vel c (mkTransform [] []) xd s).
Proof.
  destruct (row0_q (t_rot x)) as [w a b z] eqn:Hq; cbn [q_w q_x q_y q_z].
  intros -> -> Hu.
  assert (Hi : 1 * 1 + 0 * 0 = 1) by ring.
  split; [|split].
  - intros s _; rewrite K_tracking_orientation_eq, W_tracking_orientation_eq.
    rewrite (orientation_error_yaw x w z Hq), Hu.
    replace (- square (1 - 1) / (s + EPS)) with 0 by (unfold square, Rdiv; ring).
    rewrite exp_0, !clip_id by lra; split; reflexivity.
  - intros c xd s _.
    rewrite K_tracking_ang_vel_eq, W_tracking_ang_vel_eq,
            K_tracking_ang_vel_eq, W_tracking_ang_vel_eq.
    rewrite (ang_vel_error_yaw c x xd w z Hq),
            (ang_vel_error_yaw c (mkTransform [] []) xd 1 0 identity_transform_rot), Hu, Hi.
    split; reflexivity.
  - intros c xd s _ H0 H1.
    rewrite K_tracking_lin_vel_eq, W_tracking_lin_vel_eq,
            K_tracking_lin_vel_eq, W_tracking_lin_vel_eq.
    rewrite (lin_vel_error_yaw c x xd w z Hq H0 H1),
            (lin_vel_error_yaw c (mkTransform [] []) xd 1 0 identity_transform_rot H0 H1), Hu, Hi.
    split; reflexivity.
Qed.

Lemma tracking_terms_heading_invariant_witness :
  let x := mkTransform [] [mkQ 0 0 0 1] in
  q_x (row0_q (t_rot x)) = 0 /\ q_y (row0_q (t_rot x)) = 0 /\
  q_w (row0_q (t_rot x)) * q_w (row0_q (t_rot x)) +
  q_z (row0_q (t_rot x)) * q_z (row0_q (t_rot x)) = 1 /\
  (forall s, s + EPS <> 0 ->
     K.reward_tracking_orientation (mkV3 0 0 1) x s = 1 /\
     W.reward_tracking_orientation (mkV3 0 0 1) x s = 1).
Proof.
  cbv zeta.
  assert (H1 : q_x (row0_q (t_rot (mkTransform [] [mkQ 0 0 0 1]))) = 0) by reflexivity.
  assert (H2 : q_y (row0_q (t_rot (mkTransform [] [mkQ 0 0 0 1]))) = 0) by reflexivity.
  assert (H3 : q_w (row0_q (t_rot (mkTransform [] [mkQ 0 0 0 1]))) *
               q_w (row0_q (t_rot (mkTransform [] [mkQ 0 0 0 1]))) +
               q_z (row0_q (t_rot (mkTransform [] [mkQ 0 0 0 1]))) *
               q_z (row0_q (t_rot (mkTransform [] [mkQ 0 0 0 1]))) = 1)
    by (cbn; ring).
  split; [exact H1 | split; [exact H2 | split; [exact H3 |]]].
  exact (proj1 (tracking_terms_heading_invariant _ H1 H2 H3)).
Defined.

(** ** The hip slice [joint_angles[1::3]] *)

Lemma stride3_strong {A : Type} (P : list A -> Prop) :
  P [] -> (forall a, P [a]) -> (forall a b, P [a; b]) ->
  (forall a b c rest, P rest -> P (a :: b :: c :: rest)) ->
  forall l, P l.
Proof.
  intros H0 H1 H2 H3 l.
  assert (G : forall n l, (length l <= n)%nat -> P l).
  { induction n as [|n IH]; intros [|a [|b [|c rest]]] Hl; cbn in Hl; auto; try lia.
    apply H3, IH; cbn in Hl |- *; lia. }
  exact (G _ l (le_n _)).
Qed.

Lemma stride3_nth {A : Type} (l : list A) (k : nat) (d : A) :
  nth k (stride3_from1 l) d = nth (3 * k + 1) l d.
Proof.
  revert k; induction l using stride3_strong; intros k.
  - destruct k; reflexivity.
  - destruct k; [reflexivity|]; rewrite !nth_overflow by (cbn; lia); reflexivity.
  - destruct k; [reflexivity|]; rewrite !nth_overflow by (cbn; lia); reflexivity.
  - destruct k as [|k]; [reflexivity|].
    cbn [stride3_from1 nth]; rewrite IHl.
    replace (3 * S k + 1)%nat with (S (S (S (3 * k + 1)))) by lia; reflexivity.
Qed.

Lemma stride3_length {A : Type} (l : list A) :
  length (stride3_from1 l) = ((length l + 1) / 3)%nat.
Proof.
  induction l using stride3_strong; try reflexivity.
  cbn [stride3_from1 length]; rewrite IHl.
  replace (S (S (S (length l))) + 1)%nat with ((length l + 1) + 1 * 3)%nat by lia.
  rewrite Nat.div_add by lia; lia.
Qed.

(** X7.  [joint_angles[1::3]] keeps the entries at indices 1, 4, 7, ...:
    for any array, its [k]-th entry is entry [3k+1] and it has [(n+1)/3]
    entries for [n] joints.  So for the twelve joints of the robot and the
    default target [jp.zeros(4)], the abduction penalty reads exactly the
    four hip joints 1, 4, 7 and 10. *)
Theorem abduction_reads_hip_joints :
  (forall (joint_angles : list R) k d,
     nth k (stride3_from1 joint_angles) d = nth (3 * k + 1) joint_angles d) /\
  (forall joint_angles : list R,
     length (stride3_from1 joint_angles) = ((length joint_angles + 1) / 3)%nat) /\
  (forall joint_angles : list R, length joint_angles = 12%nat ->
     K.reward_abduction_angle joint_angles zeros4 =
       clip ((square (nth 1 joint_angles 0) + square (nth 4 joint_angles 0) +
              square (nth 7 joint_angles 0) + square (nth 10 joint_angles 0)) / PI ^ 2) 0 1 /\
     W.reward_abduction_angle joint_angles zeros4 =
       clip (square (nth 1 joint_angles 0) + square (nth 4 joint_angles 0) +
             square (nth 7 joint_angles 0) + square (nth 10 joint_angles 0)) (-1000) 1000).
Proof.
  split; [intros l k d; apply stride3_nth|].
  split; [intros l; apply stride3_length|].
  intros joint_angles Hl.
  do 12 (destruct joint_angles as [|? joint_angles]; [discriminate|]).
  destruct joint_angles; [|discriminate].
  unfold K.reward_abduction_angle, W.reward_abduction_angle, zeros4, vsub, jsum; cbn.
  split; f_equal; [f_equal|]; unfold square; ring.
Qed.

(** ** Feet air time: only feet touching down count *)

Lemma air_time_sum_ext (m : R) (first_contact : list bool) (air air' : list R) :
  length air = length first_contact -> length air' = length first_contact ->
  (forall i, nth i first_contact false = true -> nth i air 0 = nth i air' 0) ->
  jsum (zipw (fun a f => (a - m) * b2R f) air first_contact) =
  jsum (zipw (fun a f => (a - m) * b2R f) air' first_contact).
Proof.
  revert air air'; induction first_contact as [|f fc IH];
    intros [|a air] [|a' air'] H1 H2 Heq; cbn in H1, H2; try discriminate; try reflexivity.
  cbn [zipw jsum fold_right]; unfold jsum in IH.
  rewrite (IH air air') by (lia || (intros i Hi; exact (Heq (S i) Hi))).
  destruct f.
  - specialize (Heq 0%nat eq_refl); cbn in Heq; rewrite Heq; reflexivity.
  - unfold b2R; ring.
Qed.

(** X8.  The air time of a foot whose [first_contact] flag is false does
    not enter the feet-air-time reward: two air-time arrays of the length of
    [first_contact] that agree on the feet touching down give the same
    reward, in both catalogs. *)
Theorem feet_air_time_ignores_airborne_feet (air_time air_time' : list R)
    (first_contact : list bool) (commands : list R) (minimum_airtime : R) :
  length air_time = length first_contact ->
  length air_time' = length first_contact ->
  (forall i, nth i first_contact false = true -> nth i air_time 0 = nth i air_time' 0) ->
  K.reward_feet_air_time air_time first_contact commands minimum_airtime =
  K.reward_feet_air_time air_time' first_contact commands minimum_airtime /\
  W.reward_feet_air_time air_time first_contact commands minimum_airtime =
  W.reward_feet_air_time air_time' first_contact commands minimum_airtime.
Proof.
  intros H1 H2 Heq; unfold K.reward_feet_air_time, W.reward_feet_air_time.
  rewrite (air_time_sum_ext minimum_airtime first_contact air_time air_time' H1 H2 Heq).
  split; reflexivity.
Qed.

Lemma feet_air_time_ignores_airborne_feet_witness :
  length [1 / 2; 2] = length [true; false] /\
  length [1 / 2; 7] = length [true; false] /\
  (forall i, nth i [true; false] false = true -> nth i [1 / 2; 2] 0 = nth i [1 / 2; 7] 0) /\
  K.reward_feet_air_time [1 / 2; 2] [true; false] [1; 0; 0] (1 / 10) =
  K.reward_feet_air_time [1 / 2; 7] [true; false] [1; 0; 0] (1 / 10).
Proof.
  assert (H1 : length [1 / 2; 2] = length [true; false]) by reflexivity.
  assert (H2 : length [1 / 2; 7] = length [true; false]) by reflexivity.
  assert (H3 : forall i, nth i [true; false] false = true ->
               nth i [1 / 2; 2] 0 = nth i [1 / 2; 7] 0)
    by (intros [|[|i]] Hi; cbn in Hi; try discriminate; reflexivity).
  split; [exact H1 | split; [exact H2 | split; [exact H3 |]]].
  exact (proj1 (feet_air_time_ignores_airborne_feet _ _ _ [1; 0; 0] (1 / 10) H1 H2 H3)).
Defined.

(** ** When a sum-of-squares penalty vanishes *)

Lemma jsum_nonneg_zero (l : list R) :
  Forall (fun x => 0 <= x) l -> (jsum l = 0 <-> Forall (fun x => x = 0) l).
Proof.
  induction 1 as [|x l Hx Hl IH]; [split; auto|].
  cbn [jsum fold_right]; pose proof (jsum_nonneg l Hl) as Hs; unfold jsum in *.
  split.
  - intros H; constructor; [lra|]; apply IH; lra.
  - intros H; inversion H as [|? ? Hx0 Hr]; subst.
    apply IH in Hr; lra.
Qed.

Lemma jsum_squares_zero (l : list R) :
  jsum (map square l) = 0 <-> Forall (fun x => x = 0) l.
Proof.
  rewrite jsum_nonneg_zero.
  - rewrite Forall_map; split; apply Forall_impl; unfold square; intros a Ha.
    + destruct (Req_dec a 0); [assumption|].
      pose proof (Rmult_integral a a Ha); tauto.
    + subst; ring.
  - apply Forall_forall; intros y Hy; apply in_map_iff in Hy as [z [<- _]]; apply Rle_0_sqr.
Qed.

Lemma jsum_abs_zero (l : list R) :
  jsum (map Rabs l) = 0 <-> Forall (fun x => x = 0) l.
Proof.
  rewrite jsum_nonneg_zero.
  - rewrite Forall_map; split; apply Forall_impl; intros a Ha.
    + destruct (Req_dec a 0); [assumption|]. pose proof (Rabs_no_R0 a); tauto.
    + subst; apply Rabs_R0.
  - apply Forall_forall; intros y Hy; apply in_map_iff in Hy as [z [<- _]]; apply Rabs_pos.
Qed.

Lemma vsub_zero (a b : list R) :
  length a = length b -> (Forall (fun x => x = 0) (vsub a b) <-> a = b).
Proof.
  revert b; induction a as [|x a IH]; intros [|y b] Hl; cbn in Hl; try discriminate.
  - split; constructor.
  - unfold vsub in *; cbn [zipw]; rewrite Forall_cons_iff, IH by lia.
    split; [intros [H1 H2]; f_equal; [lra | exact H2]|].
    intros H; injection H as -> ->; split; [ring | reflexivity].
Qed.

Lemma map_div_zero (l : list R) (d : R) :
  d <> 0 -> (Forall (fun x => x = 0) (map (fun x => x / d) l) <-> Forall (fun x => x = 0) l).
Proof.
  intros Hd; rewrite Forall_map; split; apply Forall_impl; intros a Ha.
  - assert (E : a = a / d * d) by (field; exact Hd).
    rewrite E, Ha; ring.
  - subst; unfold Rdiv; ring.
Qed.

Lemma clip_unit_zero (x d : R) : 0 <= x -> 0 < d -> (clip (x / d) 0 1 = 0 <-> x = 0).
Proof.
  intros Hx Hd.
  assert (Hq : 0 <= x / d) by (unfold Rdiv; apply Rmult_le_pos; [lra | left; apply Rinv_0_lt_compat; lra]).
  split.
  - intros H; unfold clip, Rmin, Rmax in H.
    repeat match goal with H : context [Rle_dec ?a ?b] |- _ => destruct (Rle_dec a b) end; try lra.
    assert (E : x = x / d * d) by (field; lra).
    assert (H' : x / d = 0) by lra.
    rewrite E, H'; ring.
  - intros ->; unfold Rdiv; rewrite Rmult_0_l; apply clip_id; lra.
Qed.

Lemma clip_wide_zero (x : R) : 0 <= x -> (clip x (-1000) 1000 = 0 <-> x = 0).
Proof.
  intros Hx; split.
  - intros H; unfold clip, Rmin, Rmax in H.
    repeat match goal with H : context [Rle_dec ?a ?b] |- _ => destruct (Rle_dec a b) end; lra.
  - intros ->; apply clip_id; lra.
Qed.

(** X9.  For an action and a previous action of the same length, the
    action-rate penalty is 0 exactly when the two actions are equal, in both
    catalogs. *)
Theorem action_rate_zero_iff_unchanged (act last_act : list R) :
  length act = length last_act ->
  (K.reward_action_rate act last_act = 0 <-> act = last_act) /\
  (W.reward_action_rate act last_act = 0 <-> act = last_act).
Proof.
  intros Hl; unfold K.reward_action_rate, W.reward_action_rate.
  rewrite clip_unit_zero, clip_wide_zero, jsum_squares_zero, vsub_zero
    by (exact Hl || apply jsum_squares_nonneg || lra).
  tauto.
Qed.

Lemma action_rate_zero_iff_unchanged_witness :
  length [1; 2] = length [1; 3] /\
  (K.reward_action_rate [1; 2] [1; 3] = 0 <-> [1; 2] = [1; 3]).
Proof.
  assert (H : length [1; 2] = length [1; 3]) by reflexivity.
  split; [exact H | exact (proj1 (action_rate_zero_iff_unchanged _ _ H))].
Defined.

(** X10.  For joint velocities of the same length and a nonnegative time
    step, the joint-acceleration penalty is 0 exactly when the joint
    velocities did not change, in both catalogs. *)
Theorem joint_acceleration_zero_iff_unchanged (joint_vel last_joint_vel : list R) (dt : R) :
  length joint_vel = length last_joint_vel -> 0 <= dt ->
  (K.reward_joint_acceleration joint_vel last_joint_vel dt = 0 <-> joint_vel = last_joint_vel) /\
  (W.reward_joint_acceleration joint_vel last_joint_vel dt = 0 <-> joint_vel = last_joint_vel).
Proof.
  intros Hl Hdt; unfold K.reward_joint_acceleration, W.reward_joint_acceleration; cbv zeta.
  assert (He : dt + EPS <> 0) by (unfold EPS; lra).
  rewrite clip_unit_zero, clip_wide_zero, jsum_squares_zero, map_div_zero, vsub_zero
    by (exact Hl || exact He || apply jsum_squares_nonneg || lra).
  tauto.
Qed.

Lemma joint_acceleration_zero_iff_unchanged_witness :
  length [1; 2] = length [1; 2] /\ 0 <= 1 / 50 /\
  (K.reward_joint_acceleration [1; 2] [1; 2] (1 / 50) = 0 <-> [1; 2] = [1; 2]).
Proof.
  assert (H1 : length [1; 2] = length [1; 2]) by reflexivity.
  assert (H2 : 0 <= 1 / 50) by lra.
  split; [exact H1 | split; [exact H2 |]].
  exact (proj1 (joint_acceleration_zero_iff_unchanged _ _ _ H1 H2)).
Defined.

(** X11.  The torque penalty is 0 exactly when every torque is 0, and, for
    torques and velocities of one length, the mechanical-work penalty is 0
    exactly when every torque-velocity product is 0, in both catalogs. *)
Theorem torques_and_work_zero_iff (torques velocities : list R) :
  (K.reward_torques torques = 0 <-> Forall (fun t => t = 0) torques) /\
  (W.reward_torques torques = 0 <-> Forall (fun t => t = 0) torques) /\
  (length torques = length velocities ->
   (K.reward_mechanical_work torques velocities = 0 <->
      Forall (fun p => p = 0) (zipw Rmult torques velocities)) /\
   (W.reward_mechanical_work torques velocities = 0 <->
      Forall (fun p => p = 0) (zipw Rmult torques velocities))).
Proof.
  unfold K.reward_torques, W.reward_torques, K.reward_mechanical_work, W.reward_mechanical_work.
  rewrite !clip_unit_zero, !clip_wide_zero, jsum_squares_zero, jsum_abs_zero
    by (apply jsum_squares_nonneg || apply jsum_abs_nonneg || lra).
  intuition.
Qed.

(** ** Foot slip *)

Lemma rotate_identity_inv (v : V3) : rotate v (quat_inv quat_identity) = v.
Proof.
  unfold quat_identity; rewrite rotate_yaw_inv; destruct v; cbn; f_equal; ring.
Qed.

Lemma slip_terms_no_contact (vels : list V3) (contact_filt : list bool) :
  forallb negb contact_filt = true ->
  jsum (concat (zipw (fun v c => [square (v_x v) * b2R c; square (v_y v) * b2R c])
                     vels contact_filt)) = 0.
Proof.
  revert vels; induction contact_filt as [|c cf IH]; intros [|v vels] H; try reflexivity.
  cbn [forallb] in H; apply andb_prop in H as [Hc Hr]; destruct c; [discriminate|].
  cbn [zipw concat app]; unfold jsum in *; cbn [fold_right]; rewrite (IH vels Hr).
  unfold b2R; ring.
Qed.

Lemma clip_mono (x y lo hi : R) : x <= y -> clip x lo hi <= clip y lo hi.
Proof.
  intros H; unfold clip, Rmin, Rmax.
  destruct (Rle_dec x lo), (Rle_dec y lo);
    repeat match goal with |- context [Rle_dec ?a ?b] => destruct (Rle_dec a b) end; lra.
Qed.

Lemma slip_terms_mono (vels : list V3) (cf cf' : list bool) :
  Forall2 (fun a b => implb a b = true) cf cf' ->
  jsum (concat (zipw (fun v c => [square (v_x v) * b2R c; square (v_y v) * b2R c]) vels cf)) <=
  jsum (concat (zipw (fun v c => [square (v_x v) * b2R c; square (v_y v) * b2R c]) vels cf')).
Proof.
  intros H; revert vels; induction H as [|a b cf cf' Hab _ IH]; intros [|v vels];
    try (apply Rle_refl).
  cbn [zipw concat app]; unfold jsum in *; cbn [fold_right].
  specialize (IH vels).
  pose proof (Rle_0_sqr (v_x v)); pose proof (Rle_0_sqr (v_y v)); unfold square, Rsqr in *.
  destruct a, b; cbn in Hab; try discriminate; cbn [b2R]; lra.
Qed.

(** X12.  Flagging more feet as in contact never lowers the foot-slip
    penalty: if every foot flagged in [contact_filt] is also flagged in
    [contact_filt'], the penalty for [contact_filt] is at most the one for
    [contact_filt'], in both catalogs. *)
Theorem foot_slip_monotone_in_contact (ps : PipelineState) (contact_filt contact_filt' : list bool)
    (feet_site_id lower_leg_body_id : list Z) :
  Forall2 (fun a b => implb a b = true) contact_filt contact_filt' ->
  K.reward_foot_slip ps contact_filt feet_site_id lower_leg_body_id <=
  K.reward_foot_slip ps contact_filt' feet_site_id lower_leg_body_id /\
  W.reward_foot_slip ps contact_filt feet_site_id lower_leg_body_id <=
  W.reward_foot_slip ps contact_filt' feet_site_id lower_leg_body_id.
Proof.
  intros H; unfold K.reward_foot_slip, W.reward_foot_slip, foot_slip_sum; cbv zeta.
  pose proof (slip_terms_mono (zipw (foot_vel ps) feet_site_id lower_leg_body_id) _ _ H) as Hm.
  split; apply clip_mono; [|exact Hm].
  unfold Rdiv; apply Rmult_le_compat_r; [lra | exact Hm].
Qed.

Lemma foot_slip_monotone_in_contact_witness :
  let ps := mkState [mkV3 0 0 0; mkV3 1 0 0] [mkV3 0 0 0; mkV3 0 0 1]
                    (mkMotion [mkV3 0 0 5] [mkV3 3 4 0]) [] in
  Forall2 (fun a b => implb a b = true) [false; false] [true; false] /\
  K.reward_foot_slip ps [false; false] [1%Z; 1%Z] [1%Z; 1%Z] <=
  K.reward_foot_slip ps [true; false] [1%Z; 1%Z] [1%Z; 1%Z].
Proof.
  cbv zeta.
  assert (H : Forall2 (fun a b => implb a b = true) [false; false] [true; false])
    by (repeat constructor).
  split; [exact H | exact (proj1 (foot_slip_monotone_in_contact _ _ _ _ _ H))].
Defined.

(** X13.  When no foot is flagged in contact, the foot-slip penalty is 0 in
    both catalogs, whatever the foot velocities. *)
Theorem foot_slip_zero_without_contact (ps : PipelineState) (contact_filt : list bool)
    (feet_site_id lower_leg_body_id : list Z) :
  forallb negb contact_filt = true ->
  K.reward_foot_slip ps contact_filt feet_site_id lower_leg_body_id = 0 /\
  W.reward_foot_slip ps contact_filt feet_site_id lower_leg_body_id = 0.
Proof.
  intros H; unfold K.reward_foot_slip, W.reward_foot_slip, foot_slip_sum; cbv zeta.
  rewrite slip_terms_no_contact by exact H.
  replace (0 / 16) with 0 by (unfold Rdiv; ring).
  split; apply clip_id; lra.
Qed.

Lemma foot_slip_zero_without_contact_witness :
  let ps := mkState [mkV3 0 0 0; mkV3 1 0 0] [mkV3 0 0 0; mkV3 0 0 1]
                    (mkMotion [mkV3 0 0 5] [mkV3 3 4 0]) [] in
  forallb negb [false; false] = true /\
  K.reward_foot_slip ps [false; false] [1%Z; 1%Z] [1%Z; 1%Z] = 0.
Proof.
  cbv zeta.
  assert (H : forallb negb [false; false] = true) by reflexivity.
  split; [exact H | exact (proj1 (foot_slip_zero_without_contact _ _ _ _ H))].
Defined.

(** ** Geometry collisions: order does not matter *)

Lemma filter_length_perm {A : Type} (f : A -> bool) (l l' : list A) :
  Permutation l l' -> length (filter f l) = length (filter f l').
Proof.
  induction 1 as [|x l l' _ IH|x y l|l l' l'' _ IH1 _ IH2]; cbn [filter].
  - reflexivity.
  - destruct (f x); cbn [length]; lia.
  - destruct (f x), (f y); reflexivity.
  - lia.
Qed.

Lemma count_hits_perm_contacts (ids : list Z) (cs cs' : list Contact) :
  Permutation cs cs' -> count_hits ids cs = count_hits ids cs'.
Proof.
  intros Hp; induction ids as [|id ids IH]; cbn [count_hits]; [reflexivity|].
  rewrite (filter_length_perm _ _ _ Hp), IH; reflexivity.
Qed.

Lemma count_hits_perm_ids (ids ids' : list Z) (cs : list Contact) :
  Permutation ids ids' -> count_hits ids cs = count_hits ids' cs.
Proof.
  induction 1; cbn [count_hits]; lia.
Qed.

(** X14.  The collision count, and so the geometry-collision penalty of
    both catalogs, does not depend on the order of the contacts or of the
    watched geometry ids. *)
Theorem geom_collision_order_invariant (ps ps' : PipelineState) (geom_ids geom_ids' : list Z) :
  Permutation (contact ps) (contact ps') -> Permutation geom_ids geom_ids' ->
  K.reward_geom_collision ps geom_ids = K.reward_geom_collision ps' geom_ids' /\
  W.reward_geom_collision ps geom_ids = W.reward_geom_collision ps' geom_ids'.
Proof.
  intros Hc Hi.
  assert (E : collision_count ps geom_ids = collision_count ps' geom_ids').
  { rewrite !collision_count_nat, (count_hits_perm_contacts _ _ _ Hc),
            (count_hits_perm_ids _ _ _ Hi); reflexivity. }
  unfold K.reward_geom_collision, W.reward_geom_collision; rewrite E; split; reflexivity.
Qed.

Lemma geom_collision_order_invariant_witness :
  let c1 := mkContact 5 9 (-1 / 100) in
  let c2 := mkContact 3 7 (-1 / 50) in
  Permutation (contact (collision_state [c1; c2])) (contact (collision_state [c2; c1])) /\
  Permutation [5%Z; 7%Z] [7%Z; 5%Z] /\
  K.reward_geom_collision (collision_state [c1; c2]) [5%Z; 7%Z] =
  K.reward_geom_collision (collision_state [c2; c1]) [7%Z; 5%Z].
Proof.
  cbv zeta.
  assert (H1 : Permutation (contact (collision_state [mkContact 5 9 (-1 / 100); mkContact 3 7 (-1 / 50)]))
                           (contact (collision_state [mkContact 3 7 (-1 / 50); mkContact 5 9 (-1 / 100)])))
    by apply perm_swap.
  assert (H2 : Permutation [5%Z; 7%Z] [7%Z; 5%Z]) by apply perm_swap.
  split; [exact H1 | split; [exact H2 |]].
  exact (proj1 (geom_collision_order_invariant _ _ _ _ H1 H2)).
Defined.

(** ** Stand still and mechanical work *)

(** X15.  While the command norm is below the threshold (the penalty is
    active), the stand-still penalty of either catalog is 0 exactly when the
    joint angles equal the default pose (arrays of one length). *)
Theorem stand_still_zero_iff_default_pose (commands joint_angles default_pose : list R)
    (command_threshold : R) :
  length joint_angles = length default_pose ->
  normalize_norm (firstn 3 commands) < command_threshold ->
  (K.reward_stand_still commands joint_angles default_pose command_threshold = 0 <->
     joint_angles = default_pose) /\
  (W.reward_stand_still commands joint_angles default_pose command_threshold = 0 <->
     joint_angles = default_pose).
Proof.
  intros Hl Hn; unfold K.reward_stand_still, W.reward_stand_still; cbv zeta.
  rewrite (lt_b_true _ _ Hn); unfold b2R; rewrite Rmult_1_r.
  pose proof PI_RGT_0 as Hpi.
  rewrite clip_unit_zero, clip_wide_zero, jsum_abs_zero, vsub_zero
    by (exact Hl || apply jsum_abs_nonneg || lra).
  tauto.
Qed.

Lemma stand_still_zero_iff_default_pose_witness :
  length [1 / 10; 0] = length [0; 0] /\
  normalize_norm (firstn 3 [0; 0; 0]) < 1 / 10 /\
  (K.reward_stand_still [0; 0; 0] [1 / 10; 0] [0; 0] (1 / 10) = 0 <-> [1 / 10; 0] = [0; 0]).
Proof.
  assert (H1 : length [1 / 10; 0] = length [0; 0]) by reflexivity.
  assert (H2 : normalize_norm (firstn 3 [0; 0; 0]) < 1 / 10).
  { unfold normalize_norm, safe_norm, allclose0; cbn [firstn forallb].
    rewrite Rabs_R0; destruct (Rle_dec 0 (1 / 100000000)); cbn; lra. }
  split; [exact H1 | split; [exact H2 |]].
  exact (proj1 (stand_still_zero_iff_default_pose _ _ _ _ H1 H2)).
Defined.

Lemma zipw_mult_comm (a b : list R) : zipw Rmult a b = zipw Rmult b a.
Proof.
  revert b; induction a as [|x a IH]; intros [|y b]; cbn; try reflexivity.
  rewrite IH, Rmult_comm; reflexivity.
Qed.

(** X16.  The mechanical-work penalty is symmetric in its two arrays:
    swapping torques and velocities leaves it unchanged, in both catalogs. *)
Theorem mechanical_work_symmetric (torques velocities : list R) :
  K.reward_mechanical_work torques velocities = K.reward_mechanical_work velocities torques /\
  W.reward_mechanical_work torques velocities = W.reward_mechanical_work velocities torques.
Proof.
  unfold K.reward_mechanical_work, W.reward_mechanical_work.
  rewrite (zipw_mult_comm torques velocities); split; reflexivity.
Qed.
